(** * angr/engines/light/engine.py: the light-weight dispatch engines

    A shallow embedding of [SimEngineLight], [SimEngineLightVEX] and
    [SimEngineLightAIL].  Instance attributes become a record that is
    threaded through a small state/exception/log monad; Python's [None]
    is [option]'s [None]; a raised exception is the [Raise] result; the
    records sent to the module logger [l] are collected in order. *)

From Stdlib Require Import ZArith String List Lia.
From stdpp Require Import base option list sorting gmap strings.
Import ListNotations.

Set Warnings "-register-all".

Open Scope string_scope.
Open Scope Z_scope.
Open Scope list_scope.

(** ** Python-level effects *)

Module Py.

(** Exceptions that can leave a method of the engine. *)
Inductive exn : Type :=
| NotImplementedError (msg : string)
| TypeError
| AttributeError
| AssertionError
| KeyError
| ValueError
| RecursionError.

Inductive result (A : Type) : Type :=
| Ok (a : A)
| Raise (x : exn).
Arguments Ok {A} a.
Arguments Raise {A} x.

(** One call [l.warning(fmt, arg)]. *)
Inductive record : Type := Warning (fmt arg : string).

(** A method run on the instance [self : S]: its outcome, the instance
    afterwards (mutations made before a raise stay), the records logged. *)
Definition M (S A : Type) : Type := S -> result A * S * list record.

Definition ret {S A} (a : A) : M S A := fun s => (Ok a, s, []).

Definition bind {S A B} (m : M S A) (k : A -> M S B) : M S B :=
  fun s =>
    match m s with
    | (Ok a, s1, w1) =>
        match k a s1 with
        | (r, s2, w2) => (r, s2, w1 ++ w2)
        end
    | (Raise x, s1, w1) => (Raise x, s1, w1)
    end.

Definition raise {S A} (x : exn) : M S A := fun s => (Raise x, s, []).
Definition warning {S} (fmt arg : string) : M S unit :=
  fun s => (Ok tt, s, [Warning fmt arg]).
Definition gets {S A} (f : S -> A) : M S A := fun s => (Ok (f s), s, []).
Definition modify {S} (f : S -> S) : M S unit := fun s => (Ok tt, f s, []).

(** The computation that has already run and returned: it leaves the
    instance [s] and the log [w], whatever it is started on. *)
Definition arrived {S} (s : S) (w : list record) : M S unit :=
  fun _ => (Ok tt, s, w).

(** Projections of a run. *)
Definition outcome {S A} (r : result A * S * list record) : result A := fst (fst r).
Definition self_after {S A} (r : result A * S * list record) : S := snd (fst r).
Definition logged {S A} (r : result A * S * list record) : list record := snd r.

(** A method is an observer when it leaves the instance as it found it,
    whether it returns or raises. *)
Definition observer {S A} (m : M S A) : Prop := forall s, self_after (m s) = s.

(** A method reads nothing of the instance but [f self]: two instances
    that agree on [f] give the same outcome and the same log. *)
Definition reads_only {S A T} (f : S -> T) (m : M S A) : Prop :=
  forall s1 s2, f s1 = f s2 ->
    outcome (m s1) = outcome (m s2) /\ logged (m s1) = logged (m s2).

(** Python's binary [+] and [-] on the objects an analysis computes with
    (the interface [__add__]/[__sub__]); [None] stands for [TypeError]. *)
Class Arith (V : Type) : Type := {
  py_add : V -> V -> option V;
  py_sub : V -> V -> option V;
  py_type_name : V -> string
}.

(** Two built-in classes: [int] (unbounded) and [str]. *)
Inductive builtin : Type :=
| PyInt (n : Z)
| PyStr (s : string).

Definition builtin_add (a b : builtin) : option builtin :=
  match a, b with
  | PyInt x, PyInt y => Some (PyInt (x + y))
  | PyStr x, PyStr y => Some (PyStr (x +:+ y))
  | _, _ => None
  end.

Definition builtin_sub (a b : builtin) : option builtin :=
  match a, b with
  | PyInt x, PyInt y => Some (PyInt (x - y))
  | _, _ => None
  end.

Definition builtin_type_name (a : builtin) : string :=
  match a with PyInt _ => "int" | PyStr _ => "str" end.

#[export] Instance builtin_arith : Arith builtin :=
  {| py_add := builtin_add; py_sub := builtin_sub;
     py_type_name := builtin_type_name |}.

End Py.
Import Py.

Declare Scope py_scope.
Delimit Scope py_scope with py.
Notation "x <- m ;; k" := (bind m (fun x => k))
  (at level 100, m at next level, right associativity) : py_scope.
Notation "m ;;; k" := (bind m (fun _ => k))
  (at level 100, right associativity) : py_scope.
Open Scope py_scope.

(** ** The base class [SimEngineLight] *)

(** [state.arch] is the only attribute of a state the engine reads. *)
Record Arch : Type := { arch_name : string; arch_bits : Z }.
Record SimState : Type := { st_arch : Arch }.

Record CodeLocation : Type := {
  cl_block_addr : Z;
  cl_stmt_idx : option nat;
  cl_ins_addr : option Z
}.

(** Two instruction addresses in order; nothing is asked when one of them
    is absent. *)
Definition addr_le (x y : option Z) : Prop :=
  match x, y with
  | Some a, Some b => a <= b
  | _, _ => True
  end.

(** [obs j] being the code location seen while statement [j] is handled:
    the instruction address never decreases along the statements. *)
Definition ins_addr_monotone (obs : nat -> option CodeLocation) : Prop :=
  forall i j li lj, (i < j)%nat -> obs i = Some li -> obs j = Some lj ->
    addr_le (cl_ins_addr li) (cl_ins_addr lj).

(** The attributes set by [SimEngineLight.__init__]; [B] is the class of
    blocks and [T] the class of the objects kept in [tmps]. *)
Record SimEngineLight (B T : Type) : Type := {
  engine_type : string;
  state : option SimState;
  arch : option Arch;
  block : option B;
  stmt_idx : option nat;
  ins_addr : option Z;
  tmps : option (gmap Z T)
}.
Arguments engine_type {B T} _.
Arguments state {B T} _.
Arguments arch {B T} _.
Arguments block {B T} _.
Arguments stmt_idx {B T} _.
Arguments ins_addr {B T} _.
Arguments tmps {B T} _.

Section Base.
Context {B T : Type}.

(** [SimEngineLight.__init__(engine_type)]. *)
Definition init (ty : string) : SimEngineLight B T :=
  {| engine_type := ty; state := None; arch := None; block := None;
     stmt_idx := None; ins_addr := None; tmps := None |}.

Definition set_state (x : option SimState) (e : SimEngineLight B T) : SimEngineLight B T :=
  {| engine_type := engine_type e; state := x; arch := arch e;
     block := block e; stmt_idx := stmt_idx e; ins_addr := ins_addr e;
     tmps := tmps e |}.
Definition set_arch (x : option Arch) (e : SimEngineLight B T) : SimEngineLight B T :=
  {| engine_type := engine_type e; state := state e; arch := x;
     block := block e; stmt_idx := stmt_idx e; ins_addr := ins_addr e;
     tmps := tmps e |}.
Definition set_block (x : option B) (e : SimEngineLight B T) : SimEngineLight B T :=
  {| engine_type := engine_type e; state := state e; arch := arch e;
     block := x; stmt_idx := stmt_idx e; ins_addr := ins_addr e;
     tmps := tmps e |}.
Definition set_stmt_idx (x : option nat) (e : SimEngineLight B T) : SimEngineLight B T :=
  {| engine_type := engine_type e; state := state e; arch := arch e;
     block := block e; stmt_idx := x; ins_addr := ins_addr e;
     tmps := tmps e |}.
Definition set_ins_addr (x : option Z) (e : SimEngineLight B T) : SimEngineLight B T :=
  {| engine_type := engine_type e; state := state e; arch := arch e;
     block := block e; stmt_idx := stmt_idx e; ins_addr := x;
     tmps := tmps e |}.
Definition set_tmps (x : option (gmap Z T)) (e : SimEngineLight B T) : SimEngineLight B T :=
  {| engine_type := engine_type e; state := state e; arch := arch e;
     block := block e; stmt_idx := stmt_idx e; ins_addr := ins_addr e;
     tmps := x |}.

End Base.

(** [SimEngineLight.process(state, block=...)]: the keyword argument
    [block] defaults to [None]; the call is forwarded to [_process]. *)
Definition process {S B : Type}
    (_process : SimState -> option unit -> option B -> M S unit)
    (st : SimState) (block_kw : option B) : M S unit :=
  _process st None block_kw.

(** ** Dialect A: [SimEngineLightVEX] *)

Module VEX.
Section Engine.
Context {V : Type} `{!Arith V}.

(** *** pyvex nodes, as far as the engine reads them

    The constructors carry the names of the pyvex classes ([Unop] is the
    class of unary operations).  [V] is the class of the objects an evaluation yields (the literal of a
    constant, a sum, ...); [None] is not one of them.  [OtherExpr] and
    [OtherStmt] stand for the nodes of any further class, known by the
    name of the class. *)

Record IRConst : Type := { value : V }.

Inductive IRExpr : Type :=
| RdTmp (tmp : Z)
| Get (offset : Z) (ty : string)
| Load (end_ ty : string) (addr : IRExpr)
| Unop (op : string) (args : list IRExpr)
| Binop (op : string) (args : list IRExpr)
| Const (con : IRConst)
| OtherExpr (cls : string) (args : list IRExpr).

Inductive IRStmt : Type :=
| IMark (addr len delta : Z)
| WrTmp (tmp : Z) (data : IRExpr)
| Put (data : IRExpr) (offset : Z)
| Store (addr data : IRExpr) (end_ : string)
| OtherStmt (cls : string).

(** [type(expr).__name__] and [type(stmt).__name__]. *)
Definition expr_type_name (e : IRExpr) : string :=
  match e with
  | RdTmp _ => "RdTmp"
  | Get _ _ => "Get"
  | Load _ _ _ => "Load"
  | Unop _ _ => "Unop"
  | Binop _ _ => "Binop"
  | Const _ => "Const"
  | OtherExpr cls _ => cls
  end.

Definition stmt_type_name (s : IRStmt) : string :=
  match s with
  | IMark _ _ _ => "IMark"
  | WrTmp _ _ => "WrTmp"
  | Put _ _ => "Put"
  | Store _ _ _ => "Store"
  | OtherStmt cls => cls
  end.

Definition IRTypeEnv : Type := list string.
Record IRSB : Type := { statements : list IRStmt; irsb_tyenv : IRTypeEnv }.
Record Block : Type := { addr : Z; vex : IRSB }.

(** *** The instance *)

Record SimEngineLightVEX : Type := {
  base : SimEngineLight Block V;
  tyenv : option IRTypeEnv
}.

Definition on_base (f : SimEngineLight Block V -> SimEngineLight Block V)
    (e : SimEngineLightVEX) : SimEngineLightVEX :=
  {| base := f (base e); tyenv := tyenv e |}.

Definition set_tyenv (x : option IRTypeEnv) (e : SimEngineLightVEX) : SimEngineLightVEX :=
  {| base := base e; tyenv := x |}.

(** [SimEngineLightVEX.__init__()]. *)
Definition new : SimEngineLightVEX := {| base := init "vex"; tyenv := None |}.

(** *** Attribute lookup on the instance

    The methods of the class whose name starts with [_handle_]; [getattr]
    answers [hasattr(self, name)] and [getattr(self, name)]. *)
Inductive method : Type :=
| hStmt | hWrTmp | hPut | hStore | hRdTmp | hGet | hLoad
| hUnaryOp | hBinop | hAdd | hSub | hConst.

Definition methods : list (string * method) :=
  [ ("_handle_Stmt", hStmt); ("_handle_WrTmp", hWrTmp); ("_handle_Put", hPut);
    ("_handle_Store", hStore); ("_handle_RdTmp", hRdTmp); ("_handle_Get", hGet);
    ("_handle_Load", hLoad); ("_handle_UnaryOp", hUnaryOp);
    ("_handle_Binop", hBinop); ("_handle_Add", hAdd); ("_handle_Sub", hSub);
    ("_handle_Const", hConst) ].

Definition getattr (name : string) : option method :=
  match List.find (fun p => String.eqb (fst p) name) methods with
  | Some p => Some (snd p)
  | None => None
  end.

Definition not_implemented (what : string) : exn :=
  NotImplementedError ("Please implement the " +:+ what +:+ " handler with your own logic.").

(** The operator table [vex_operations] of [..vex.irop], which is not part
    of this file: per opcode, whether the operation is a conversion. *)
Record SimIROp : Type := { _conversion : bool }.
Variable vex_operations : gmap string SimIROp.

(** *** Expression handlers *)

Definition _handle_RdTmp (expr : IRExpr) : M SimEngineLightVEX (option V) :=
  match expr with
  | RdTmp tmp =>
      t <- gets (fun self => tmps (base self)) ;;
      match t with
      | Some table => ret (table !! tmp)
      | None => raise TypeError
      end
  | _ => raise AttributeError
  end.

Definition _handle_Get (expr : IRExpr) : M SimEngineLightVEX (option V) :=
  raise (not_implemented "Get").

Definition _handle_Load (expr : IRExpr) : M SimEngineLightVEX (option V) :=
  raise (not_implemented "Load").

Definition _handle_Const (arg : IRExpr) : M SimEngineLightVEX (option V) :=
  match arg with
  | Const con => ret (Some (value con))
  | _ => raise AttributeError
  end.

(** The handlers below call [self._expr]; it is the parameter [_expr]
    until the recursion is closed. *)
Section Handlers.
Variable _expr : IRExpr -> M SimEngineLightVEX (option V).

Definition _handle_Add (arg0 arg1 : IRExpr) : M SimEngineLightVEX (option V) :=
  expr_0 <- _expr arg0 ;;
  match expr_0 with
  | None => ret None
  | Some v0 =>
      expr_1 <- _expr arg1 ;;
      match expr_1 with
      | None => ret None
      | Some v1 =>
          match py_add v0 v1 with
          | Some r => ret (Some r)
          | None => ret None
          end
      end
  end.

Definition _handle_Sub (arg0 arg1 : IRExpr) : M SimEngineLightVEX (option V) :=
  expr_0 <- _expr arg0 ;;
  match expr_0 with
  | None => ret None
  | Some v0 =>
      expr_1 <- _expr arg1 ;;
      match expr_1 with
      | None => ret None
      | Some v1 =>
          match py_sub v0 v1 with
          | Some r => ret (Some r)
          | None => ret None
          end
      end
  end.

(** A call [f( *args )] of a method of one, respectively two, parameters:
    any other number of arguments is a [TypeError]. *)
Definition star1 {A} (f : IRExpr -> M SimEngineLightVEX A) (args : list IRExpr)
    : M SimEngineLightVEX A :=
  match args with
  | [a] => f a
  | _ => raise TypeError
  end.

Definition star2 {A} (f : IRExpr -> IRExpr -> M SimEngineLightVEX A) (args : list IRExpr)
    : M SimEngineLightVEX A :=
  match args with
  | [a; b] => f a b
  | _ => raise TypeError
  end.

Definition _handle_Binop (expr : IRExpr) : M SimEngineLightVEX (option V) :=
  match expr with
  | Binop op args | Unop op args =>
      if String.prefix "Iop_Add" op then star2 _handle_Add args
      else if String.prefix "Iop_Sub" op then star2 _handle_Sub args
      else if String.prefix "Const" op then star1 _handle_Const args
      else ret None
  | _ => raise AttributeError
  end.

(** What [handler(expr)] does for a bound method other than
    [_handle_UnaryOp] and [_handle_Stmt]. *)
Definition call (m : method) (expr : IRExpr) : M SimEngineLightVEX (option V) :=
  match m with
  | hRdTmp => _handle_RdTmp expr
  | hGet => _handle_Get expr
  | hLoad => _handle_Load expr
  | hBinop => _handle_Binop expr
  | hConst => _handle_Const expr
  | hPut => raise (not_implemented "Put")
  | hStore => raise (not_implemented "Store")
  | hAdd | hSub => raise TypeError
  | hWrTmp => raise AttributeError
  | hUnaryOp | hStmt => raise RecursionError
  end.

Definition _handle_UnaryOp (expr : IRExpr) : M SimEngineLightVEX (option V) :=
  match expr with
  | Unop op _ | Binop op _ =>
      match vex_operations !! op with
      | None => raise KeyError
      | Some simop =>
          let handler_name :=
            if _conversion simop then "_handle_Conversion" else "_handle_" +:+ op in
          match getattr handler_name with
          | None => warning "Unsupported UnaryOp %s." op ;;; ret None
          | Some m => call m expr
          end
      end
  | _ => raise AttributeError
  end.

End Handlers.

Fixpoint _expr (expr : IRExpr) : M SimEngineLightVEX (option V) :=
  match getattr ("_handle_" +:+ expr_type_name expr) with
  | Some hUnaryOp => _handle_UnaryOp _expr expr
  | Some m => call _expr m expr
  | None =>
      warning "Unsupported expression type %s." (expr_type_name expr) ;;;
      ret None
  end.

(** *** Statement handlers *)

Definition _handle_WrTmp (stmt : IRStmt) : M SimEngineLightVEX unit :=
  match stmt with
  | WrTmp tmp data_expr =>
      data <- _expr data_expr ;;
      match data with
      | None => ret tt
      | Some d =>
          t <- gets (fun self => tmps (base self)) ;;
          match t with
          | Some table => modify (on_base (set_tmps (Some (<[tmp := d]> table))))
          | None => raise TypeError
          end
      end
  | _ => raise AttributeError
  end.

Definition _handle_Put (stmt : IRStmt) : M SimEngineLightVEX unit :=
  raise (not_implemented "Put").

Definition _handle_Store (stmt : IRStmt) : M SimEngineLightVEX unit :=
  raise (not_implemented "Store").

(** [getattr(self, handler)(stmt)] for a statement; a statement has none
    of the attributes the expression handlers read. *)
Definition call_stmt (m : method) (stmt : IRStmt) : M SimEngineLightVEX unit :=
  match m with
  | hWrTmp => _handle_WrTmp stmt
  | hPut => _handle_Put stmt
  | hStore => _handle_Store stmt
  | hGet => raise (not_implemented "Get")
  | hLoad => raise (not_implemented "Load")
  | hRdTmp | hUnaryOp | hBinop | hConst => raise AttributeError
  | hAdd | hSub => raise TypeError
  | hStmt => raise RecursionError
  end.

Definition _handle_Stmt (stmt : IRStmt) : M SimEngineLightVEX unit :=
  match getattr ("_handle_" +:+ stmt_type_name stmt) with
  | Some m => call_stmt m stmt
  | None => warning "Unsupported statement type %s." (stmt_type_name stmt)
  end.

(** *** Helper methods *)

Definition _codeloc : M SimEngineLightVEX CodeLocation :=
  self <- gets (fun self => base self) ;;
  match block self with
  | Some b =>
      ret {| cl_block_addr := addr b; cl_stmt_idx := stmt_idx self;
             cl_ins_addr := ins_addr self |}
  | None => raise AttributeError
  end.

(** *** The statement loop *)

(** The assignments at the head of the loop body of [_process_Stmt]. *)
Definition loop_head (idx : nat) (stmt : IRStmt) : M SimEngineLightVEX unit :=
  modify (on_base (set_stmt_idx (Some idx))) ;;;
  match stmt with
  | IMark a _ delta => modify (on_base (set_ins_addr (Some (a + delta))))
  | _ => ret tt
  end.

(** [for stmt_idx, stmt in enumerate(stmts)], counting from [idx]. *)
Fixpoint _process_Stmt_from (idx : nat) (stmts : list IRStmt) : M SimEngineLightVEX unit :=
  match stmts with
  | [] => ret tt
  | stmt :: rest =>
      loop_head idx stmt ;;;
      _handle_Stmt stmt ;;;
      _process_Stmt_from (S idx) rest
  end.

Definition _process_Stmt : M SimEngineLightVEX unit :=
  b <- gets (fun self => block (base self)) ;;
  match b with
  | Some blk => _process_Stmt_from 0 (statements (vex blk))
  | None => raise AttributeError
  end.

(** The part of [_process] before the call of [_process_Stmt] ... *)
Definition bind_context (st : SimState) (blk : Block) : M SimEngineLightVEX unit :=
  modify (on_base (set_tmps (Some ∅))) ;;;
  modify (on_base (set_block (Some blk))) ;;;
  modify (on_base (set_state (Some st))) ;;;
  modify (on_base (set_arch (Some (st_arch st)))) ;;;
  modify (set_tyenv (Some (irsb_tyenv (vex blk)))).

(** ... and the part after it. *)
Definition clear_context : M SimEngineLightVEX unit :=
  modify (on_base (set_stmt_idx None)) ;;;
  modify (on_base (set_ins_addr None)).

Definition _process (st : SimState) (successors : option unit) (blk : option Block)
    : M SimEngineLightVEX unit :=
  match blk with
  | None => raise AssertionError
  | Some b =>
      bind_context st b ;;;
      _process_Stmt ;;;
      clear_context
  end.

(** *** What a handler sees

    [codeloc_in_loop self stmts j] is what [self._codeloc()] returns at
    the moment [_handle_Stmt] is called for statement [j] of [stmts], when
    the loop was entered on [self]; it is [None] when the loop does not
    get that far.  [codeloc_during] is the same for a whole call of
    [process]. *)
Definition codeloc_in_loop (self : SimEngineLightVEX) (stmts : list IRStmt) (j : nat)
    : option CodeLocation :=
  match stmts !! j with
  | Some stmt =>
      match (_process_Stmt_from 0 (take j stmts) ;;;
             loop_head j stmt ;;; _codeloc) self with
      | (Ok loc, _, _) => Some loc
      | _ => None
      end
  | None => None
  end.

Definition codeloc_during (self : SimEngineLightVEX) (st : SimState) (blk : Block) (j : nat)
    : option CodeLocation :=
  codeloc_in_loop (self_after (bind_context st blk self)) (statements (vex blk)) j.

(** *** Vocabulary of the properties *)

(** The instruction address an [IMark] announces. *)
Definition mark_addr (stmt : IRStmt) : option Z :=
  match stmt with
  | IMark a _ delta => Some (a + delta)
  | _ => None
  end.

(** The addresses announced by the markers of a statement list, in order. *)
Definition marks (stmts : list IRStmt) : list Z := omap mark_addr stmts.

(** The address announced by the last marker of [stmts]; [x] without one. *)
Definition last_mark (stmts : list IRStmt) (x : option Z) : option Z :=
  match last (marks stmts) with
  | Some a => Some a
  | None => x
  end.

(** The loop entered on [self] gets as far as statement [j]. *)
Definition reaches (self : SimEngineLightVEX) (stmts : list IRStmt) (j : nat) : Prop :=
  outcome (_process_Stmt_from 0 (take j stmts) self) = Ok tt.

(** The instance with every attribute of the context set to [None]. *)
Definition clear_all (self : SimEngineLightVEX) : SimEngineLightVEX :=
  {| base := init (engine_type (base self)); tyenv := None |}.


(** The expressions built from constants, temp reads and additions and
    subtractions of two operands. *)
Fixpoint arith (e : IRExpr) : bool :=
  match e with
  | Const _ | RdTmp _ => true
  | Binop op [a; b] =>
      (String.prefix "Iop_Add" op || String.prefix "Iop_Sub" op) && arith a && arith b
  | _ => false
  end.

(** Reference: the value of such an expression over a temp table, by
    plain arithmetic; [None] as soon as a temp is undefined or an
    operation is a [TypeError]. *)
Fixpoint arith_value (table : gmap Z V) (e : IRExpr) : option V :=
  match e with
  | Const con => Some (value con)
  | RdTmp tmp => table !! tmp
  | Binop op [a; b] =>
      match arith_value table a with
      | Some v0 =>
          match arith_value table b with
          | Some v1 => if String.prefix "Iop_Add" op then py_add v0 v1 else py_sub v0 v1
          | None => None
          end
      | None => None
      end
  | _ => None
  end.

(** The record logged for a statement without a handler. *)
Definition unsupported_stmt (s : IRStmt) : record :=
  Warning "Unsupported statement type %s." (stmt_type_name s).

End Engine.

Arguments IRExpr V : clear implicits.
Arguments IRStmt V : clear implicits.
Arguments IRConst V : clear implicits.
Arguments Block V : clear implicits.
Arguments IRSB V : clear implicits.
Arguments SimEngineLightVEX V : clear implicits.

(** The opcodes used in the examples; [Iop_64to32] is a conversion. *)
Definition some_operations : gmap string SimIROp :=
  {[ "Iop_64to32" := {| _conversion := true |};
     "Iop_Not32" := {| _conversion := false |} ]}.

End VEX.

(** ** Dialect B: [SimEngineLightAIL] *)

Module AIL.
Section Engine.
Context {V : Type} `{!Arith V}.

(** *** ailment nodes, as far as the engine reads them

    The keyword arguments of a node are its [tags].  [Prim v] is an object
    that is not a node (the literal of a [Const], the sum of two
    literals); the operands of a rebuilt [BinaryOp] may be such objects. *)
Definition Tags : Type := list (string * Z).

Inductive Expr : Type :=
| Prim (v : V)
| Const (idx : Z) (value : V) (bits : Z) (tags : Tags)
| Tmp (idx : Z) (tmp_idx : Z) (bits : Z) (tags : Tags)
| Load (idx : Z) (addr : Expr) (size : Z) (endness : string) (tags : Tags)
| UnaryOp (idx : Z) (op : string) (operand : Expr) (tags : Tags)
| BinaryOp (idx : Z) (op : string) (operands : list Expr) (tags : Tags)
| OtherExpr (cls : string) (idx : Z) (tags : Tags).

Inductive Statement : Type :=
| Assign (idx : Z) (dst src : Expr) (ins_addr : Z)
| Store (idx : Z) (addr data : Expr) (size : Z) (ins_addr : Z)
| Jump (idx : Z) (target : Expr) (ins_addr : Z)
| Call (idx : Z) (target : Expr) (ins_addr : Z)
| OtherStmt (cls : string) (idx : Z) (ins_addr : Z).

Definition expr_type_name (e : Expr) : string :=
  match e with
  | Prim v => py_type_name v
  | Const _ _ _ _ => "Const"
  | Tmp _ _ _ _ => "Tmp"
  | Load _ _ _ _ _ => "Load"
  | UnaryOp _ _ _ _ => "UnaryOp"
  | BinaryOp _ _ _ _ => "BinaryOp"
  | OtherExpr cls _ _ => cls
  end.

Definition stmt_type_name (s : Statement) : string :=
  match s with
  | Assign _ _ _ _ => "Assign"
  | Store _ _ _ _ _ => "Store"
  | Jump _ _ _ => "Jump"
  | Call _ _ _ => "Call"
  | OtherStmt cls _ _ => cls
  end.

(** [stmt.ins_addr]. *)
Definition stmt_ins_addr (s : Statement) : Z :=
  match s with
  | Assign _ _ _ a | Store _ _ _ _ a | Jump _ _ a | Call _ _ a
  | OtherStmt _ _ a => a
  end.

Record Block : Type := { addr : Z; statements : list Statement }.

(** Modelled from the spec: the classes of ailment define no arithmetic,
    so [+] and [-] succeed on two objects that are not nodes and are a
    [TypeError] as soon as one slot holds a node. *)
Definition expr_add (a b : Expr) : option Expr :=
  match a, b with
  | Prim x, Prim y => Prim <$> py_add x y
  | _, _ => None
  end.

Definition expr_sub (a b : Expr) : option Expr :=
  match a, b with
  | Prim x, Prim y => Prim <$> py_sub x y
  | _, _ => None
  end.

(** *** The instance: the attributes of the base class, nothing more *)

(** [SimEngineLightAIL.__init__()]. *)
Definition new : SimEngineLight Block Expr := init "ail".

(** *** Attribute lookup on the instance *)
Inductive method : Type :=
| hStmt | hJump | hCall | hConst | hTmp | hLoad
| hUnaryOp | hBinaryOp | hAdd | hSub.

Definition methods : list (string * method) :=
  [ ("_ail_handle_Stmt", hStmt); ("_ail_handle_Jump", hJump);
    ("_ail_handle_Call", hCall); ("_ail_handle_Const", hConst);
    ("_ail_handle_Tmp", hTmp); ("_ail_handle_Load", hLoad);
    ("_ail_handle_UnaryOp", hUnaryOp); ("_ail_handle_BinaryOp", hBinaryOp);
    ("_ail_handle_Add", hAdd); ("_ail_handle_Sub", hSub) ].

Definition getattr (name : string) : option method :=
  match List.find (fun p => String.eqb (fst p) name) methods with
  | Some p => Some (snd p)
  | None => None
  end.

Definition not_implemented (what : string) : exn :=
  NotImplementedError ("Please implement the " +:+ what +:+ " handler with your own logic.").

(** *** Expression handlers *)

Definition _ail_handle_Const (expr : Expr) : M (SimEngineLight Block Expr) (option Expr) :=
  match expr with
  | Const _ value _ _ => ret (Some (Prim value))
  | _ => raise AttributeError
  end.

Definition _ail_handle_Tmp (expr : Expr) : M (SimEngineLight Block Expr) (option Expr) :=
  match expr with
  | Tmp _ tmp_idx _ _ =>
      t <- gets (fun self => tmps self) ;;
      match t with
      | Some table =>
          match table !! tmp_idx with
          | Some v => ret (Some v)
          | None => ret None
          end
      | None => raise TypeError
      end
  | _ => raise AttributeError
  end.

Definition _ail_handle_Load (expr : Expr) : M (SimEngineLight Block Expr) (option Expr) :=
  raise (not_implemented "Load").

Section Handlers.
Variable _expr : Expr -> M (SimEngineLight Block Expr) (option Expr).

Definition _ail_handle_Add (expr : Expr) : M (SimEngineLight Block Expr) (option Expr) :=
  match expr with
  | BinaryOp idx _ operands tags =>
      match operands with
      | [arg0; arg1] =>
          expr_0 <- _expr arg0 ;;
          expr_1 <- _expr arg1 ;;
          let expr_0 := match expr_0 with None => arg0 | Some x => x end in
          let expr_1 := match expr_1 with None => arg1 | Some x => x end in
          match expr_add expr_0 expr_1 with
          | Some r => ret (Some r)
          | None => ret (Some (BinaryOp idx "Add" [expr_0; expr_1] tags))
          end
      | _ => raise ValueError
      end
  | _ => raise AttributeError
  end.

Definition _ail_handle_Sub (expr : Expr) : M (SimEngineLight Block Expr) (option Expr) :=
  match expr with
  | BinaryOp idx _ operands tags =>
      match operands with
      | [arg0; arg1] =>
          expr_0 <- _expr arg0 ;;
          expr_1 <- _expr arg1 ;;
          let expr_0 := match expr_0 with None => arg0 | Some x => x end in
          let expr_1 := match expr_1 with None => arg1 | Some x => x end in
          match expr_sub expr_0 expr_1 with
          | Some r => ret (Some r)
          | None => ret (Some (BinaryOp idx "Sub" [expr_0; expr_1] tags))
          end
      | _ => raise ValueError
      end
  | _ => raise AttributeError
  end.

(** What [handler(expr)] does for a bound method other than the three
    dispatchers. *)
Definition call (m : method) (expr : Expr) : M (SimEngineLight Block Expr) (option Expr) :=
  match m with
  | hConst => _ail_handle_Const expr
  | hTmp => _ail_handle_Tmp expr
  | hLoad => _ail_handle_Load expr
  | hAdd => _ail_handle_Add expr
  | hSub => _ail_handle_Sub expr
  | hJump => raise (not_implemented "Jump")
  | hCall => raise (not_implemented "Call")
  | hStmt | hUnaryOp | hBinaryOp => raise RecursionError
  end.

Definition _ail_handle_UnaryOp (expr : Expr) : M (SimEngineLight Block Expr) (option Expr) :=
  match expr with
  | UnaryOp _ op _ _ | BinaryOp _ op _ _ =>
      match getattr ("_ail_handle_" +:+ op) with
      | Some handler => call handler expr
      | None => warning "Unsupported UnaryOp %s." op ;;; ret None
      end
  | _ => raise AttributeError
  end.

Definition _ail_handle_BinaryOp (expr : Expr) : M (SimEngineLight Block Expr) (option Expr) :=
  match expr with
  | UnaryOp _ op _ _ | BinaryOp _ op _ _ =>
      match getattr ("_ail_handle_" +:+ op) with
      | Some handler => call handler expr
      | None => warning "Unsupported BinaryOp %s." op ;;; ret None
      end
  | _ => raise AttributeError
  end.

End Handlers.

Fixpoint _expr (expr : Expr) : M (SimEngineLight Block Expr) (option Expr) :=
  match getattr ("_ail_handle_" +:+ expr_type_name expr) with
  | Some hUnaryOp => _ail_handle_UnaryOp _expr expr
  | Some hBinaryOp => _ail_handle_BinaryOp _expr expr
  | Some m => call _expr m expr
  | None =>
      warning "Unsupported expression type %s." (expr_type_name expr) ;;;
      ret None
  end.

(** *** Statement handlers *)

Definition _ail_handle_Jump (stmt : Statement) : M (SimEngineLight Block Expr) unit :=
  raise (not_implemented "Jump").

Definition _ail_handle_Call (stmt : Statement) : M (SimEngineLight Block Expr) unit :=
  raise (not_implemented "Call").

(** [getattr(self, handler)(stmt)] for a statement; a statement has none
    of the attributes the expression handlers read. *)
Definition call_stmt (m : method) (stmt : Statement) : M (SimEngineLight Block Expr) unit :=
  match m with
  | hJump => _ail_handle_Jump stmt
  | hCall => _ail_handle_Call stmt
  | hLoad => raise (not_implemented "Load")
  | hConst | hTmp | hAdd | hSub | hUnaryOp | hBinaryOp => raise AttributeError
  | hStmt => raise RecursionError
  end.

Definition _ail_handle_Stmt (stmt : Statement) : M (SimEngineLight Block Expr) unit :=
  match getattr ("_ail_handle_" +:+ stmt_type_name stmt) with
  | Some m => call_stmt m stmt
  | None => warning "Unsupported statement type %s." (stmt_type_name stmt)
  end.

(** *** Helper methods *)

Definition _codeloc : M (SimEngineLight Block Expr) CodeLocation :=
  self <- gets (fun self => self) ;;
  match block self with
  | Some b =>
      ret {| cl_block_addr := addr b; cl_stmt_idx := stmt_idx self;
             cl_ins_addr := ins_addr self |}
  | None => raise AttributeError
  end.

(** *** The statement loop *)

Definition loop_head (idx : nat) (stmt : Statement) : M (SimEngineLight Block Expr) unit :=
  modify (set_stmt_idx (Some idx)) ;;;
  modify (set_ins_addr (Some (stmt_ins_addr stmt))).

Fixpoint _process_Stmt_from (idx : nat) (stmts : list Statement)
    : M (SimEngineLight Block Expr) unit :=
  match stmts with
  | [] => ret tt
  | stmt :: rest =>
      loop_head idx stmt ;;;
      _ail_handle_Stmt stmt ;;;
      _process_Stmt_from (S idx) rest
  end.

Definition _process_Stmt : M (SimEngineLight Block Expr) unit :=
  b <- gets (fun self => block self) ;;
  match b with
  | Some blk => _process_Stmt_from 0 (statements blk)
  | None => raise AttributeError
  end.

Definition bind_context (st : SimState) (blk : option Block)
    : M (SimEngineLight Block Expr) unit :=
  modify (set_tmps (Some ∅)) ;;;
  modify (set_block blk) ;;;
  modify (set_state (Some st)) ;;;
  modify (set_arch (Some (st_arch st))).

Definition clear_context : M (SimEngineLight Block Expr) unit :=
  modify (set_stmt_idx None) ;;;
  modify (set_ins_addr None).

Definition _process (st : SimState) (successors : option unit) (blk : option Block)
    : M (SimEngineLight Block Expr) unit :=
  bind_context st blk ;;;
  _process_Stmt ;;;
  clear_context.

(** What [self._codeloc()] returns at the moment [_ail_handle_Stmt] is
    called for statement [j], as for dialect A. *)
Definition codeloc_in_loop (self : SimEngineLight Block Expr) (stmts : list Statement)
    (j : nat) : option CodeLocation :=
  match stmts !! j with
  | Some stmt =>
      match (_process_Stmt_from 0 (take j stmts) ;;;
             loop_head j stmt ;;; _codeloc) self with
      | (Ok loc, _, _) => Some loc
      | _ => None
      end
  | None => None
  end.

Definition codeloc_during (self : SimEngineLight Block Expr) (st : SimState) (blk : Block)
    (j : nat) : option CodeLocation :=
  codeloc_in_loop (self_after (bind_context st (Some blk) self)) (statements blk) j.

(** The loop entered on [self] gets as far as statement [j]. *)
Definition reaches (self : SimEngineLight Block Expr) (stmts : list Statement) (j : nat)
    : Prop :=
  outcome (_process_Stmt_from 0 (take j stmts) self) = Ok tt.

(** The instance with every attribute of the context set to [None]. *)
Definition clear_all (self : SimEngineLight Block Expr) : SimEngineLight Block Expr :=
  init (engine_type self).

(** Reference: the plain object an expression built from constants, temps
    that hold plain objects, and additions and subtractions stands for;
    [None] for any other expression and when an operation is a
    [TypeError]. *)
Fixpoint fold_value (table : gmap Z Expr) (e : Expr) : option V :=
  match e with
  | Const _ value _ _ => Some value
  | Tmp _ tmp_idx _ _ =>
      match table !! tmp_idx with
      | Some (Prim v) => Some v
      | _ => None
      end
  | BinaryOp _ op [a; b] _ =>
      match fold_value table a, fold_value table b with
      | Some x, Some y =>
          if String.eqb op "Add" then py_add x y
          else if String.eqb op "Sub" then py_sub x y
          else None
      | _, _ => None
      end
  | _ => None
  end.

(** The record logged for a statement without a handler. *)
Definition unsupported_stmt (s : Statement) : record :=
  Warning "Unsupported statement type %s." (stmt_type_name s).

End Engine.

Arguments Expr V : clear implicits.
Arguments Statement V : clear implicits.
Arguments Block V : clear implicits.

End AIL.

(** ** Concrete inputs used in the examples *)

Module Ex.

Definition amd64 : Arch := {| arch_name := "AMD64"; arch_bits := 64 |}.
Definition st0 : SimState := {| st_arch := amd64 |}.

Definition vconst (n : Z) : VEX.IRExpr builtin := VEX.Const {| VEX.value := PyInt n |}.
Definition vstr (x : string) : VEX.IRExpr builtin := VEX.Const {| VEX.value := PyStr x |}.

Definition vblock (stmts : list (VEX.IRStmt builtin)) : VEX.Block builtin :=
  {| VEX.addr := 0x400000;
     VEX.vex := {| VEX.statements := stmts; VEX.irsb_tyenv := ["Ity_I64"] |} |}.

(** A dialect-A instance in the middle of a call, with [t0 = 5]. *)
Definition vself : VEX.SimEngineLightVEX builtin :=
  VEX.on_base (set_tmps (Some {[ 0 := PyInt 5 ]})) VEX.new.

Definition aconst (n : Z) : AIL.Expr builtin := AIL.Const 1 (PyInt n) 64 [].
Definition aload : AIL.Expr builtin := AIL.Load 2 (aconst 0x1000) 8 "Iend_LE" [].
Definition atmp (i : Z) : AIL.Expr builtin := AIL.Tmp 3 i 64 [].

Definition ablock (stmts : list (AIL.Statement builtin)) : AIL.Block builtin :=
  {| AIL.addr := 0x400000; AIL.statements := stmts |}.

(** A dialect-B instance in the middle of a call, with [t0 = 5]. *)
Definition aself : SimEngineLight (AIL.Block builtin) (AIL.Expr builtin) :=
  set_tmps (Some {[ 0 := AIL.Prim (PyInt 5) ]}) AIL.new.

End Ex.

(** * Properties *)

(** ** The monad *)

Section MonadFacts.
Context {S : Type}.

Lemma bind_Ok {A B} (m : M S A) (k : A -> M S B) s a s1 w1 :
  m s = (Ok a, s1, w1) ->
  bind m k s = (outcome (k a s1), self_after (k a s1), w1 ++ logged (k a s1)).
Proof.
  intros Hm. unfold bind, outcome, self_after, logged. rewrite Hm.
  destruct (k a s1) as [[r s2] w2]. reflexivity.
Qed.

Lemma bind_Raise {A B} (m : M S A) (k : A -> M S B) s x s1 w1 :
  m s = (Raise x, s1, w1) -> bind m k s = (Raise x, s1, w1).
Proof. intros Hm. unfold bind. rewrite Hm. reflexivity. Qed.

Lemma bind_Ok_inv {A B} (m : M S A) (k : A -> M S B) s b s2 w :
  bind m k s = (Ok b, s2, w) ->
  exists a s1 w1 w2,
    m s = (Ok a, s1, w1) /\ k a s1 = (Ok b, s2, w2) /\ w = w1 ++ w2.
Proof.
  unfold bind. destruct (m s) as [[[a|x] s1] w1]; [|discriminate].
  destruct (k a s1) as [[r s2'] w2] eqn:Hk. intros [= -> -> <-].
  exists a, s1, w1, w2. auto.
Qed.

Lemma outcome_Ok {A} (r : result A * S * list record) a :
  outcome r = Ok a -> r = (Ok a, self_after r, logged r).
Proof. destruct r as [[? ?] ?]. unfold outcome. simpl. intros ->. reflexivity. Qed.

Lemma run_eta {A} (r : result A * S * list record) :
  r = (outcome r, self_after r, logged r).
Proof. destruct r as [[? ?] ?]. reflexivity. Qed.

(** Sequencing is associative, so a loop can be cut at any statement. *)
Lemma bind_assoc {A B C} (m : M S A) (k : A -> M S B) (h : B -> M S C) s :
  bind (bind m k) h s = bind m (fun a => bind (k a) h) s.
Proof.
  unfold bind. destruct (m s) as [[[a|x] s1] w1]; [|reflexivity].
  destruct (k a s1) as [[[b|y] s2] w2]; [|reflexivity].
  destruct (h b s2) as [[r s3] w3]. rewrite app_assoc. reflexivity.
Qed.

Lemma bind_ext {A B} (m : M S A) (k k' : A -> M S B) s :
  (forall a s1, k a s1 = k' a s1) -> bind m k s = bind m k' s.
Proof.
  intros Hk. unfold bind. destruct (m s) as [[[a|x] s1] w1]; [|reflexivity].
  rewrite Hk. reflexivity.
Qed.

Lemma bind_ret_l {A B} (a : A) (k : A -> M S B) s : bind (ret a) k s = k a s.
Proof. unfold bind, ret. destruct (k a s) as [[r s2] w2]. reflexivity. Qed.

Lemma observer_ret {A} (a : A) : observer (@ret S A a).
Proof. intros s. reflexivity. Qed.

Lemma observer_raise {A} (x : exn) : observer (@raise S A x).
Proof. intros s. reflexivity. Qed.

Lemma observer_warning fmt arg : observer (@warning S fmt arg).
Proof. intros s. reflexivity. Qed.

Lemma observer_gets {A} (f : S -> A) : observer (gets f).
Proof. intros s. reflexivity. Qed.

Lemma observer_bind {A B} (m : M S A) (k : A -> M S B) :
  observer m -> (forall a, observer (k a)) -> observer (bind m k).
Proof.
  intros Hm Hk s. unfold bind, self_after.
  specialize (Hm s). unfold self_after in Hm.
  destruct (m s) as [[[a|x] s1] w1]; simpl in Hm; subst s1; [|reflexivity].
  specialize (Hk a s). unfold self_after in Hk.
  destruct (k a s) as [[r s2] w2]. exact Hk.
Qed.

Lemma bind_gets {A B} (g : S -> A) (k : A -> M S B) s : bind (gets g) k s = k (g s) s.
Proof. unfold bind, gets. destruct (k (g s) s) as [[r s2] w2]. reflexivity. Qed.

Lemma bind_cong_l {A B} (m m' : M S A) (k : A -> M S B) s :
  m s = m' s -> bind m k s = bind m' k s.
Proof. unfold bind. intros ->. reflexivity. Qed.

Lemma bind_ext_at {A B} (m : M S A) (k k' : A -> M S B) s a s1 w1 :
  m s = (Ok a, s1, w1) -> k a s1 = k' a s1 -> bind m k s = bind m k' s.
Proof. unfold bind. intros -> ->. reflexivity. Qed.

(** A run that returned can be replaced by its result. *)
Lemma bind_arrived {B} (m : M S unit) (k : unit -> M S B) s s' s1 w1 :
  m s = (Ok tt, s1, w1) -> bind m k s = bind (arrived s1 w1) k s'.
Proof. unfold bind, arrived. intros ->. reflexivity. Qed.

End MonadFacts.

Create HintDb observers.
#[local] Hint Resolve observer_ret observer_raise observer_warning
  observer_gets : observers.

(** ** Dialect A *)

(** [startswith]: a string starts with each of its prefixes. *)
Lemma prefix_append (p w : string) : String.prefix p (p +:+ w) = true.
Proof.
  induction p as [|c p IH]; simpl.
  - destruct w; reflexivity.
  - destruct (Ascii.ascii_dec c c) as [_|Hne]; [exact IH|contradiction].
Qed.

Section VEXFacts.
Import VEX.
Context {V : Type} `{!Arith V}.
Variable ops : gmap string SimIROp.

(** Induction on expressions that reaches the arguments of an operator. *)
Lemma IRExpr_rect_args (P : IRExpr V -> Prop)
  (HRdTmp : forall tmp, P (RdTmp tmp))
  (HGet : forall offset ty, P (Get offset ty))
  (HLoad : forall end_ ty a, P a -> P (Load end_ ty a))
  (HUnop : forall op args, Forall P args -> P (Unop op args))
  (HBinop : forall op args, Forall P args -> P (Binop op args))
  (HConst : forall con, P (Const con))
  (HOther : forall cls args, Forall P args -> P (OtherExpr cls args)) :
  forall e, P e.
Proof.
  fix IH 1. intros [tmp|offset ty|end_ ty a|op args|op args|con|cls args].
  - apply HRdTmp.
  - apply HGet.
  - apply HLoad, IH.
  - apply HUnop. induction args as [|a args IHargs]; constructor; [apply IH|exact IHargs].
  - apply HBinop. induction args as [|a args IHargs]; constructor; [apply IH|exact IHargs].
  - apply HConst.
  - apply HOther. induction args as [|a args IHargs]; constructor; [apply IH|exact IHargs].
Qed.

Lemma observer_handle_RdTmp (e : IRExpr V) : observer (_handle_RdTmp e).
Proof.
  destruct e; simpl; auto with observers.
  apply observer_bind; auto with observers.
  intros [table|]; auto with observers.
Qed.

Lemma observer_handle_Const (e : IRExpr V) : observer (_handle_Const e).
Proof. destruct e; simpl; auto with observers. Qed.

Lemma observer_handle_Add rec (a0 a1 : IRExpr V) :
  observer (rec a0) -> observer (rec a1) -> observer (_handle_Add rec a0 a1).
Proof.
  intros H0 H1. unfold _handle_Add. apply observer_bind; [exact H0|].
  intros [v0|]; auto with observers. apply observer_bind; [exact H1|].
  intros [v1|]; auto with observers. destruct (py_add v0 v1); auto with observers.
Qed.

Lemma observer_handle_Sub rec (a0 a1 : IRExpr V) :
  observer (rec a0) -> observer (rec a1) -> observer (_handle_Sub rec a0 a1).
Proof.
  intros H0 H1. unfold _handle_Sub. apply observer_bind; [exact H0|].
  intros [v0|]; auto with observers. apply observer_bind; [exact H1|].
  intros [v1|]; auto with observers. destruct (py_sub v0 v1); auto with observers.
Qed.

Lemma observer_star2 rec (h : (IRExpr V -> M (SimEngineLightVEX V) (option V)) ->
      IRExpr V -> IRExpr V -> M (SimEngineLightVEX V) (option V)) args :
  (forall a0 a1, observer (rec a0) -> observer (rec a1) -> observer (h rec a0 a1)) ->
  Forall (fun a => observer (rec a)) args ->
  observer (star2 (h rec) args).
Proof.
  intros Hh Hargs. destruct args as [|a0 [|a1 [|a2 args]]]; simpl; auto with observers.
  apply Hh.
  - apply (Forall_inv Hargs).
  - apply (Forall_inv (Forall_inv_tail Hargs)).
Qed.

Lemma observer_handle_Binop rec op (args : list (IRExpr V)) e :
  e = Binop op args \/ e = Unop op args ->
  Forall (fun a => observer (rec a)) args ->
  observer (_handle_Binop rec e).
Proof.
  intros He Hargs.
  assert (Hbody : observer
    (if String.prefix "Iop_Add" op then star2 (_handle_Add rec) args
     else if String.prefix "Iop_Sub" op then star2 (_handle_Sub rec) args
     else if String.prefix "Const" op then star1 _handle_Const args
     else ret None)).
  { destruct (String.prefix "Iop_Add" op).
    { apply (observer_star2 rec _handle_Add); [apply observer_handle_Add|exact Hargs]. }
    destruct (String.prefix "Iop_Sub" op).
    { apply (observer_star2 rec _handle_Sub); [apply observer_handle_Sub|exact Hargs]. }
    destruct (String.prefix "Const" op); auto with observers.
    destruct args as [|a0 [|a1 args]]; simpl; auto with observers.
    apply observer_handle_Const. }
  destruct He as [-> | ->]; exact Hbody.
Qed.

Lemma observer_call rec m op (args : list (IRExpr V)) e :
  e = Binop op args \/ e = Unop op args ->
  Forall (fun a => observer (rec a)) args ->
  observer (call rec m e).
Proof.
  intros He Hargs. destruct m; simpl; auto with observers;
    try (unfold _handle_Get, _handle_Load; auto with observers).
  - apply observer_handle_RdTmp.
  - eapply observer_handle_Binop; eauto.
  - apply observer_handle_Const.
Qed.

Lemma observer_call_leaf rec m (e : IRExpr V) :
  match e with Binop _ _ | Unop _ _ => False | _ => True end ->
  observer (call rec m e).
Proof.
  intros He. destruct m; simpl; auto with observers;
    try (unfold _handle_Get, _handle_Load; auto with observers).
  - apply observer_handle_RdTmp.
  - destruct e; simpl; auto with observers; contradiction.
  - apply observer_handle_Const.
Qed.

Lemma observer_handle_UnaryOp rec (e : IRExpr V) :
  match e with
  | Binop _ args | Unop _ args => Forall (fun a => observer (rec a)) args
  | _ => True
  end ->
  observer (_handle_UnaryOp ops rec e).
Proof.
  intros He. destruct e as [| | |op args|op args| |]; simpl; auto with observers.
  - destruct (ops !! op) as [simop|]; auto with observers.
    destruct (getattr _) as [m|].
    + eapply observer_call; eauto.
    + apply observer_bind; auto with observers.
  - destruct (ops !! op) as [simop|]; auto with observers.
    destruct (getattr _) as [m|].
    + eapply observer_call; eauto.
    + apply observer_bind; auto with observers.
Qed.

(** [_expr], one step unfolded. *)
Lemma _expr_eq (e : IRExpr V) :
  _expr ops e =
  match getattr ("_handle_" +:+ expr_type_name e) with
  | Some hUnaryOp => _handle_UnaryOp ops (_expr ops) e
  | Some m => call (_expr ops) m e
  | None =>
      warning "Unsupported expression type %s." (expr_type_name e) ;;;
      ret None
  end.
Proof. destruct e; reflexivity. Qed.

(** An Add or a Sub node reaches its handler with its two operands. *)
Lemma expr_Binop_Add width (a0 a1 : IRExpr V) :
  _expr ops (Binop ("Iop_Add" +:+ width) [a0; a1]) = _handle_Add (_expr ops) a0 a1.
Proof.
  rewrite _expr_eq. cbn [expr_type_name].
  change (getattr ("_handle_" +:+ "Binop")) with (Some hBinop).
  cbn [call _handle_Binop]. rewrite prefix_append. reflexivity.
Qed.

Lemma expr_Binop_Sub width (a0 a1 : IRExpr V) :
  _expr ops (Binop ("Iop_Sub" +:+ width) [a0; a1]) = _handle_Sub (_expr ops) a0 a1.
Proof.
  rewrite _expr_eq. cbn [expr_type_name].
  change (getattr ("_handle_" +:+ "Binop")) with (Some hBinop).
  cbn [call _handle_Binop]. rewrite prefix_append. reflexivity.
Qed.

(** Evaluating an expression never changes the instance. *)
Lemma observer_expr (e : IRExpr V) : observer (_expr ops e).
Proof.
  induction e using IRExpr_rect_args; rewrite _expr_eq; cbn [expr_type_name].
  - apply (observer_call_leaf _ hRdTmp). exact I.
  - apply (observer_call_leaf _ hGet). exact I.
  - apply (observer_call_leaf _ hLoad). exact I.
  - change (getattr ("_handle_" +:+ "Unop")) with (@None method).
    apply observer_bind; auto with observers.
  - apply (observer_call _ hBinop op args); auto.
  - apply (observer_call_leaf _ hConst). exact I.
  - destruct (getattr _) as [m|].
    + destruct m; try (apply observer_call_leaf; exact I).
      apply observer_handle_UnaryOp. exact I.
    + apply observer_bind; auto with observers.
Qed.

(** *** Statements and the loop *)

(** A statement handler changes at most the temp table, and never
    takes the table away. *)
Lemma handle_Stmt_frame (stmt : IRStmt V) self :
  exists t, self_after (_handle_Stmt ops stmt self) = on_base (set_tmps t) self /\
            (is_Some (tmps (base self)) -> is_Some t).
Proof.
  assert (Hid : self = on_base (set_tmps (tmps (base self))) self)
    by (destruct self as [[] ?]; reflexivity).
  assert (Hobs : forall m : M (SimEngineLightVEX V) unit, observer m ->
            exists t, self_after (m self) = on_base (set_tmps t) self /\
                      (is_Some (tmps (base self)) -> is_Some t)).
  { intros m Hm. exists (tmps (base self)). rewrite Hm. split; [exact Hid|auto]. }
  unfold _handle_Stmt. destruct (getattr _) as [m|]; [|apply Hobs; auto with observers].
  destruct m; simpl;
    try solve [apply Hobs; unfold _handle_Put, _handle_Store; auto with observers].
  destruct stmt as [? ? ?|tmp data|? ?|? ? ?|?];
    try solve [apply Hobs; simpl; auto with observers].
  unfold _handle_WrTmp, bind.
  pose proof (observer_expr data self) as Hd. unfold self_after in Hd.
  destruct (_expr ops data self) as [[[[d|]|x] s1] w1]; simpl in Hd; subst s1; simpl.
  - destruct (tmps (base self)) as [table|]; simpl; eauto.
  - eauto.
  - eauto.
Qed.

Lemma loop_head_run idx (stmt : IRStmt V) self :
  loop_head idx stmt self =
    (Ok tt,
     on_base (set_ins_addr (last_mark [stmt] (ins_addr (base self))))
       (on_base (set_stmt_idx (Some idx)) self),
     []).
Proof. destruct self as [[] ?], stmt; reflexivity. Qed.

Lemma last_mark_nil x : last_mark (V:=V) [] x = x.
Proof. reflexivity. Qed.

Lemma last_mark_app (l1 l2 : list (IRStmt V)) x :
  last_mark (l1 ++ l2) x = last_mark l2 (last_mark l1 x).
Proof.
  unfold last_mark, marks. rewrite omap_app, last_app.
  destruct (last (omap mark_addr l2)); [reflexivity|].
  destruct (last (omap mark_addr l1)); reflexivity.
Qed.

Lemma last_mark_cons (s : IRStmt V) l x :
  last_mark (s :: l) x = last_mark l (last_mark [s] x).
Proof. apply (last_mark_app [s] l). Qed.

(** The loop, when it runs to its end: where it leaves the instance. *)
Lemma process_Stmt_from_Ok (stmts : list (IRStmt V)) idx self self' w :
  _process_Stmt_from ops idx stmts self = (Ok tt, self', w) ->
  ins_addr (base self') = last_mark stmts (ins_addr (base self)) /\
  block (base self') = block (base self) /\
  state (base self') = state (base self) /\
  arch (base self') = arch (base self) /\
  tyenv self' = tyenv self /\
  engine_type (base self') = engine_type (base self) /\
  (stmts = [] \/ stmt_idx (base self') = Some (idx + length stmts - 1)%nat) /\
  (is_Some (tmps (base self)) -> is_Some (tmps (base self'))).
Proof.
  revert idx self w. induction stmts as [|stmt rest IH]; intros idx self w Hrun.
  { injection Hrun as <- _. repeat split; auto. }
  simpl in Hrun.
  apply bind_Ok_inv in Hrun as ([] & s1 & w1 & w' & Hhead & Hrun & ->).
  rewrite loop_head_run in Hhead. injection Hhead as <- <-.
  apply bind_Ok_inv in Hrun as ([] & s2 & w2 & w3 & Hh & Hrun & ->).
  match type of Hh with _ ?s = _ =>
    destruct (handle_Stmt_frame stmt s) as (t & Ht & Hsome) end.
  rewrite Hh in Ht. unfold self_after in Ht. simpl in Ht. subst s2.
  pose proof Hrun as Hrest.
  apply IH in Hrun as (Hi & Hb & Hs & Ha & Hty & He & Hidx & Htm).
  destruct self as [[] ?]. simpl in *. rewrite last_mark_cons.
  repeat split; try assumption.
  - right. destruct Hidx as [-> | ->].
    + injection Hrest as <- _. simpl. f_equal. lia.
    + f_equal. lia.
  - intros Hsm. apply Htm, Hsome, Hsm.
Qed.

(** The loop over [l1 ++ l2] is the loop over [l1] followed by the loop
    over [l2]: what ran before statement [j] is the loop over the first [j]
    statements. *)
Lemma process_Stmt_from_app (l1 l2 : list (IRStmt V)) idx self :
  _process_Stmt_from ops idx (l1 ++ l2) self =
  (_process_Stmt_from ops idx l1 ;;;
   _process_Stmt_from ops (idx + length l1) l2) self.
Proof.
  revert idx self. induction l1 as [|stmt l1 IH]; intros idx self.
  - simpl. rewrite bind_ret_l. f_equal. lia.
  - simpl. rewrite bind_assoc. apply bind_ext. intros _ s1.
    rewrite bind_assoc. apply bind_ext. intros _ s2.
    rewrite IH. replace (S idx + length l1)%nat with (idx + S (length l1))%nat by lia.
    reflexivity.
Qed.

(** The loop, cut at statement [j]: the loop over the first [j]
    statements, the head of the body for statement [j], its handler, the
    rest of the loop.  [codeloc_in_loop] looks at the instance between the
    head and the handler. *)
Lemma process_Stmt_from_cut (stmts : list (IRStmt V)) j stmt self :
  stmts !! j = Some stmt ->
  _process_Stmt_from ops 0 stmts self =
  (_process_Stmt_from ops 0 (take j stmts) ;;;
   loop_head j stmt ;;;
   _handle_Stmt ops stmt ;;;
   _process_Stmt_from ops (S j) (drop (S j) stmts)) self.
Proof.
  intros Hj. rewrite <- (take_drop_middle stmts j stmt Hj) at 1.
  rewrite process_Stmt_from_app. apply bind_ext. intros _ s1.
  rewrite length_take_le by (apply Nat.lt_le_incl, (lookup_lt_Some _ _ _ Hj)).
  reflexivity.
Qed.

Lemma codeloc_run (self : SimEngineLightVEX V) b :
  block (base self) = Some b ->
  _codeloc self =
    (Ok {| cl_block_addr := addr b; cl_stmt_idx := stmt_idx (base self);
           cl_ins_addr := ins_addr (base self) |}, self, []).
Proof. intros Hb. unfold _codeloc, bind, gets. simpl. rewrite Hb. reflexivity. Qed.

(** The code location a handler sees for statement [j]. *)
Lemma codeloc_in_loop_Some self (stmts : list (IRStmt V)) j b :
  block (base self) = Some b ->
  is_Some (stmts !! j) ->
  reaches ops self stmts j ->
  codeloc_in_loop ops self stmts j =
    Some {| cl_block_addr := addr b; cl_stmt_idx := Some j;
            cl_ins_addr := last_mark (take (S j) stmts) (ins_addr (base self)) |}.
Proof.
  intros Hb [stmt Hj] Hreach. unfold codeloc_in_loop. rewrite Hj.
  apply outcome_Ok in Hreach.
  destruct (process_Stmt_from_Ok _ _ _ _ _ Hreach) as (Hi & Hb' & _).
  rewrite (bind_Ok _ _ _ _ _ _ Hreach).
  rewrite (bind_Ok _ _ _ _ _ _ (loop_head_run _ _ _)).
  erewrite codeloc_run by (simpl; rewrite Hb'; exact Hb).
  unfold outcome. simpl. rewrite Hi.
  rewrite (take_S_r _ _ _ Hj), last_mark_app. reflexivity.
Qed.

Lemma codeloc_in_loop_inv self (stmts : list (IRStmt V)) j loc :
  codeloc_in_loop ops self stmts j = Some loc ->
  reaches ops self stmts j /\ is_Some (stmts !! j) /\
  cl_stmt_idx loc = Some j /\
  cl_ins_addr loc = last_mark (take (S j) stmts) (ins_addr (base self)).
Proof.
  unfold codeloc_in_loop, reaches. destruct (stmts !! j) as [stmt|] eqn:Hj; [|discriminate].
  destruct (_process_Stmt_from ops 0 (take j stmts) self) as [[[[]|x] s1] w1] eqn:Hrun.
  2:{ rewrite (bind_Raise _ _ _ _ _ _ Hrun). discriminate. }
  destruct (process_Stmt_from_Ok _ _ _ _ _ Hrun) as (Hi & Hb' & _).
  rewrite (bind_Ok _ _ _ _ _ _ Hrun).
  rewrite (bind_Ok _ _ _ _ _ _ (loop_head_run _ _ _)).
  unfold _codeloc, bind, gets, outcome, self_after, logged. simpl.
  destruct (block (base s1)) as [b|]; simpl; [|discriminate].
  intros [= <-]. simpl. rewrite Hi, (take_S_r _ _ _ Hj), last_mark_app. eauto.
Qed.

Lemma bind_context_run st (b : Block V) (self : SimEngineLightVEX V) :
  bind_context st b self =
    (Ok tt,
     {| base := {| engine_type := engine_type (base self); state := Some st;
                   arch := Some (st_arch st); block := Some b;
                   stmt_idx := stmt_idx (base self);
                   ins_addr := ins_addr (base self); tmps := Some ∅ |};
        tyenv := Some (irsb_tyenv (vex b)) |},
     []).
Proof. reflexivity. Qed.

Lemma last_mark_no_marks (l : list (IRStmt V)) x :
  Forall (fun s => mark_addr s = None) l -> last_mark l x = x.
Proof.
  intros Hl. unfold last_mark, marks.
  replace (omap mark_addr l) with (@nil Z); [reflexivity|].
  induction Hl as [|s l Hs _ IH]; simpl; [reflexivity|]. rewrite Hs. exact IH.
Qed.

(** A call of [process] that returns: what it leaves on the instance. *)
Lemma vex_process_completed st blk (self : SimEngineLightVEX V) :
  outcome (process (_process ops) st blk self) = Ok tt ->
  exists b, blk = Some b /\
    let self' := self_after (process (_process ops) st blk self) in
    stmt_idx (base self') = None /\ ins_addr (base self') = None /\
    block (base self') = Some b /\ state (base self') = Some st /\
    arch (base self') = Some (st_arch st) /\
    tyenv self' = Some (irsb_tyenv (vex b)) /\
    is_Some (tmps (base self')) /\
    engine_type (base self') = engine_type (base self).
Proof.
  unfold process, _process. destruct blk as [b|]; [|discriminate].
  intros Hok. exists b. split; [reflexivity|]. cbv zeta.
  apply outcome_Ok in Hok. revert Hok.
  generalize (self_after ((bind_context st b;;; _process_Stmt ops;;; clear_context) self)).
  generalize (logged ((bind_context st b;;; _process_Stmt ops;;; clear_context) self)).
  intros w self' Hrun.
  apply bind_Ok_inv in Hrun as ([] & s1 & w1 & w' & Hctx & Hrun & ->).
  rewrite bind_context_run in Hctx. injection Hctx as <- <-.
  apply bind_Ok_inv in Hrun as ([] & s2 & w2 & w3 & Hloop & Hclear & ->).
  unfold _process_Stmt in Hloop.
  apply bind_Ok_inv in Hloop as (ob & s1' & w4 & w5 & Hget & Hloop & ->).
  injection Hget as <- <- <-. cbn [block base] in Hloop.
  apply process_Stmt_from_Ok in Hloop as (Hi & Hb & Hs & Ha & Hty & He & _ & Htm).
  injection Hclear as <- <-. simpl in *.
  repeat split; auto.
Qed.


(** [process] reads nothing of the instance but the statement index and
    the instruction address (and leaves [engine_type] alone). *)
Lemma vex_process_rebinds st b (e1 e2 : SimEngineLightVEX V) :
  engine_type (base e1) = engine_type (base e2) ->
  stmt_idx (base e1) = stmt_idx (base e2) ->
  ins_addr (base e1) = ins_addr (base e2) ->
  process (_process ops) st (Some b) e1 = process (_process ops) st (Some b) e2.
Proof.
  intros He Hs Hi. unfold process, _process. unfold bind at 1 3.
  rewrite !bind_context_run, He, Hs, Hi. reflexivity.
Qed.

(** With the markers in non-decreasing order, the address of the last
    marker can only grow along the statements. *)
Lemma last_mark_sorted (l1 l2 : list (IRStmt V)) x :
  StronglySorted Z.le (marks (l1 ++ l2)) ->
  marks l1 <> [] ->
  exists a b, last_mark l1 x = Some a /\ last_mark (l1 ++ l2) x = Some b /\ a <= b.
Proof.
  unfold last_mark, marks. rewrite omap_app. intros Hsorted Hne.
  apply last_is_Some in Hne as [a Ha]. rewrite Ha, last_app.
  destruct (last (omap mark_addr l2)) as [b|] eqn:Hb.
  - exists a, b. repeat split.
    eapply StronglySorted_app_1_elem_of; eauto using last_Some_elem_of.
  - exists a, a. rewrite Ha. repeat split. lia.
Qed.

(** A loop that gets as far as statement [j] gets as far as any earlier
    statement. *)
Lemma reaches_le (self : SimEngineLightVEX V) (stmts : list (IRStmt V)) i j :
  (i <= j)%nat -> reaches ops self stmts j -> reaches ops self stmts i.
Proof.
  unfold reaches. intros Hij.
  replace (take j stmts) with (take i stmts ++ drop i (take j stmts)).
  2:{ rewrite <- (take_drop i (take j stmts)) at 2. rewrite take_take.
      f_equal. f_equal. lia. }
  rewrite process_Stmt_from_app. unfold bind, outcome.
  destruct (_process_Stmt_from ops 0 (take i stmts) self) as [[[[]|x] s1] w1];
    [reflexivity|]. simpl. discriminate.
Qed.

(** The call of [process], cut where the handler of statement [j] is
    called. *)
Lemma vex_process_cut st (b : Block V) (self : SimEngineLightVEX V) j stmt s_j w_j :
  statements (vex b) !! j = Some stmt ->
  (bind_context st b ;;;
   _process_Stmt_from ops 0 (take j (statements (vex b))) ;;;
   loop_head j stmt) self = (Ok tt, s_j, w_j) ->
  process (_process ops) st (Some b) self =
  (arrived s_j w_j ;;;
   _handle_Stmt ops stmt ;;;
   _process_Stmt_from ops (S j) (drop (S j) (statements (vex b))) ;;;
   clear_context) self.
Proof.
  intros Hj Ho.
  rewrite <- (bind_arrived _ _ self self _ _ Ho).
  unfold process, _process. rewrite bind_assoc.
  apply (bind_ext_at _ _ _ _ _ _ _ (bind_context_run st b self)).
  set (s0 := {| base := _; tyenv := _ |}).
  unfold _process_Stmt. rewrite !bind_assoc, bind_gets. cbn [block base s0].
  rewrite (bind_cong_l _ _ _ _ (process_Stmt_from_cut _ j stmt s0 Hj)).
  rewrite !bind_assoc. apply bind_ext. intros _ s1.
  rewrite !bind_assoc. apply bind_ext. intros _ s2.
  rewrite !bind_assoc. reflexivity.
Qed.

(** The instance on which the handler of statement [j] is called, and the
    code location it gives. *)
Lemma vex_entry st (b : Block V) (self : SimEngineLightVEX V) j stmt :
  statements (vex b) !! j = Some stmt ->
  reaches ops (self_after (bind_context st b self)) (statements (vex b)) j ->
  exists s_j w_j,
    (bind_context st b ;;;
     _process_Stmt_from ops 0 (take j (statements (vex b))) ;;;
     loop_head j stmt) self = (Ok tt, s_j, w_j) /\
    _codeloc s_j =
      (Ok {| cl_block_addr := addr b; cl_stmt_idx := Some j;
             cl_ins_addr := last_mark (take (S j) (statements (vex b)))
                              (ins_addr (base self)) |}, s_j, []).
Proof.
  intros Hj Hreach. unfold reaches in Hreach. apply outcome_Ok in Hreach.
  destruct (process_Stmt_from_Ok _ _ _ _ _ Hreach) as (Hi & Hb & _).
  rewrite bind_context_run in Hreach, Hi, Hb. unfold self_after at 2 in Hi.
  unfold self_after at 2 in Hb. unfold self_after at 1 in Hreach.
  cbn [fst snd base ins_addr block] in Hreach, Hi, Hb.
  set (s0 := {| base := _; tyenv := _ |}) in *.
  set (s1 := self_after (_process_Stmt_from ops 0 (take j (statements (vex b))) s0)) in *.
  set (w1 := logged (_process_Stmt_from ops 0 (take j (statements (vex b))) s0)) in *.
  exists (on_base (set_ins_addr (last_mark [stmt] (ins_addr (base s1))))
            (on_base (set_stmt_idx (Some j)) s1)), w1.
  split.
  - unfold bind. rewrite bind_context_run. fold s0.
    rewrite Hreach, loop_head_run. simpl. rewrite app_nil_r. reflexivity.
  - rewrite (codeloc_run _ b) by (simpl; exact Hb). simpl.
    rewrite Hi, (take_S_r _ _ _ Hj), last_mark_app. reflexivity.
Qed.

Lemma codeloc_during_Some st (b : Block V) (self : SimEngineLightVEX V) j stmt :
  statements (vex b) !! j = Some stmt ->
  reaches ops (self_after (bind_context st b self)) (statements (vex b)) j ->
  codeloc_during ops self st b j =
    Some {| cl_block_addr := addr b; cl_stmt_idx := Some j;
            cl_ins_addr := last_mark (take (S j) (statements (vex b)))
                             (ins_addr (base self)) |}.
Proof.
  intros Hj Hreach. unfold codeloc_during.
  rewrite (codeloc_in_loop_Some _ _ _ b); [reflexivity|reflexivity|eauto|exact Hreach].
Qed.

End VEXFacts.

(** ** Dialect B *)

Section AILFacts.
Import AIL.
Context {V : Type} `{!Arith V}.

(** [_expr], one step unfolded. *)
Lemma ail_expr_eq (e : Expr V) :
  _expr e =
  match getattr ("_ail_handle_" +:+ expr_type_name e) with
  | Some hUnaryOp => _ail_handle_UnaryOp _expr e
  | Some hBinaryOp => _ail_handle_BinaryOp _expr e
  | Some m => call _expr m e
  | None =>
      warning "Unsupported expression type %s." (expr_type_name e) ;;;
      ret None
  end.
Proof. destruct e; reflexivity. Qed.

(** No statement handler of the base engine touches the instance. *)
Lemma observer_ail_handle_Stmt (stmt : Statement V) : observer (_ail_handle_Stmt stmt).
Proof.
  unfold _ail_handle_Stmt. destruct (getattr _) as [m|]; auto with observers.
  destruct m; simpl; unfold _ail_handle_Jump, _ail_handle_Call; auto with observers.
Qed.

Lemma ail_loop_head_run idx (stmt : Statement V) self :
  loop_head idx stmt self =
    (Ok tt, set_ins_addr (Some (stmt_ins_addr stmt)) (set_stmt_idx (Some idx) self), []).
Proof. reflexivity. Qed.

Lemma ail_process_Stmt_from_Ok (stmts : list (Statement V)) idx self self' w :
  _process_Stmt_from idx stmts self = (Ok tt, self', w) ->
  block self' = block self /\ state self' = state self /\ arch self' = arch self /\
  tmps self' = tmps self /\ engine_type self' = engine_type self /\
  match last stmts with
  | None => self' = self
  | Some stmt =>
      stmt_idx self' = Some (idx + length stmts - 1)%nat /\
      ins_addr self' = Some (stmt_ins_addr stmt)
  end.
Proof.
  revert idx self w. induction stmts as [|stmt rest IH]; intros idx self w Hrun.
  { injection Hrun as <- _. repeat split; auto. }
  simpl in Hrun.
  apply bind_Ok_inv in Hrun as ([] & s1 & w1 & w' & Hhead & Hrun & ->).
  rewrite ail_loop_head_run in Hhead. injection Hhead as <- <-.
  apply bind_Ok_inv in Hrun as ([] & s2 & w2 & w3 & Hh & Hrun & ->).
  match type of Hh with _ ?s = _ => pose proof (observer_ail_handle_Stmt stmt s) as Hobs end.
  rewrite Hh in Hobs. unfold self_after in Hobs. simpl in Hobs. subst s2.
  apply IH in Hrun as (Hb & Hs & Ha & Ht & He & Hlast).
  destruct rest as [|stmt' rest'].
  - simpl in Hlast. subst self'. simpl. repeat split; auto. f_equal. lia.
  - rewrite last_cons_cons. destruct (last (stmt' :: rest')) as [sl|] eqn:Hl.
    + destruct Hlast as [-> ->]. simpl in *. repeat split; auto. f_equal. lia.
    + apply last_None in Hl. discriminate.
Qed.

Lemma ail_process_Stmt_from_app (l1 l2 : list (Statement V)) idx self :
  _process_Stmt_from idx (l1 ++ l2) self =
  (_process_Stmt_from idx l1 ;;; _process_Stmt_from (idx + length l1) l2) self.
Proof.
  revert idx self. induction l1 as [|stmt l1 IH]; intros idx self.
  - simpl. rewrite bind_ret_l. f_equal. lia.
  - simpl. rewrite bind_assoc. apply bind_ext. intros _ s1.
    rewrite bind_assoc. apply bind_ext. intros _ s2.
    rewrite IH. replace (S idx + length l1)%nat with (idx + S (length l1))%nat by lia.
    reflexivity.
Qed.

Lemma ail_process_Stmt_from_cut (stmts : list (Statement V)) j stmt self :
  stmts !! j = Some stmt ->
  _process_Stmt_from 0 stmts self =
  (_process_Stmt_from 0 (take j stmts) ;;;
   loop_head j stmt ;;;
   _ail_handle_Stmt stmt ;;;
   _process_Stmt_from (S j) (drop (S j) stmts)) self.
Proof.
  intros Hj. rewrite <- (take_drop_middle stmts j stmt Hj) at 1.
  rewrite ail_process_Stmt_from_app. apply bind_ext. intros _ s1.
  rewrite length_take_le by (apply Nat.lt_le_incl, (lookup_lt_Some _ _ _ Hj)).
  reflexivity.
Qed.

(** The code location a handler sees for statement [j]: it carries the
    statement's own instruction address. *)
Lemma ail_codeloc_in_loop_Some self (stmts : list (Statement V)) j b stmt :
  block self = Some b ->
  stmts !! j = Some stmt ->
  reaches self stmts j ->
  codeloc_in_loop self stmts j =
    Some {| cl_block_addr := addr b; cl_stmt_idx := Some j;
            cl_ins_addr := Some (stmt_ins_addr stmt) |}.
Proof.
  intros Hb Hj Hreach. unfold codeloc_in_loop. rewrite Hj.
  apply outcome_Ok in Hreach.
  destruct (ail_process_Stmt_from_Ok _ _ _ _ _ Hreach) as (Hb' & _).
  rewrite (bind_Ok _ _ _ _ _ _ Hreach).
  rewrite (bind_Ok _ _ _ _ _ _ (ail_loop_head_run _ _ _)).
  unfold _codeloc, bind, gets, outcome, self_after, logged. simpl.
  unfold self_after in Hb'. rewrite Hb', Hb. reflexivity.
Qed.

Lemma ail_codeloc_in_loop_inv self (stmts : list (Statement V)) j loc :
  codeloc_in_loop self stmts j = Some loc ->
  reaches self stmts j /\
  exists stmt, stmts !! j = Some stmt /\ cl_stmt_idx loc = Some j /\
               cl_ins_addr loc = Some (stmt_ins_addr stmt).
Proof.
  unfold codeloc_in_loop, reaches. destruct (stmts !! j) as [stmt|] eqn:Hj; [|discriminate].
  destruct (_process_Stmt_from 0 (take j stmts) self) as [[[[]|x] s1] w1] eqn:Hrun.
  2:{ rewrite (bind_Raise _ _ _ _ _ _ Hrun). discriminate. }
  rewrite (bind_Ok _ _ _ _ _ _ Hrun).
  rewrite (bind_Ok _ _ _ _ _ _ (ail_loop_head_run _ _ _)).
  unfold _codeloc, bind, gets, outcome, self_after, logged. simpl.
  destruct (block s1) as [b|]; simpl; [|discriminate].
  intros [= <-]. simpl. eauto.
Qed.

Lemma ail_bind_context_run st (b : option (Block V)) (self : SimEngineLight (Block V) (Expr V)) :
  bind_context st b self =
    (Ok tt,
     {| engine_type := engine_type self; state := Some st;
        arch := Some (st_arch st); block := b;
        stmt_idx := stmt_idx self; ins_addr := ins_addr self; tmps := Some ∅ |},
     []).
Proof. reflexivity. Qed.

Lemma ail_process_completed st blk (self : SimEngineLight (Block V) (Expr V)) :
  outcome (process _process st blk self) = Ok tt ->
  let self' := self_after (process _process st blk self) in
  stmt_idx self' = None /\ ins_addr self' = None /\
  block self' = blk /\ state self' = Some st /\ arch self' = Some (st_arch st) /\
  tmps self' = Some ∅ /\ engine_type self' = engine_type self.
Proof.
  unfold process, _process. intros Hok. cbv zeta.
  apply outcome_Ok in Hok. revert Hok.
  generalize (self_after ((bind_context st blk;;; _process_Stmt;;; clear_context) self)).
  generalize (logged ((bind_context st blk;;; _process_Stmt;;; clear_context) self)).
  intros w self' Hrun.
  apply bind_Ok_inv in Hrun as ([] & s1 & w1 & w' & Hctx & Hrun & ->).
  rewrite ail_bind_context_run in Hctx. injection Hctx as <- <-.
  apply bind_Ok_inv in Hrun as ([] & s2 & w2 & w3 & Hloop & Hclear & ->).
  unfold _process_Stmt in Hloop.
  apply bind_Ok_inv in Hloop as (ob & s1' & w4 & w5 & Hget & Hloop & ->).
  injection Hget as <- <- <-. cbn [block] in Hloop.
  destruct blk as [b|]; [|discriminate].
  apply ail_process_Stmt_from_Ok in Hloop as (Hb & Hs & Ha & Ht & He & _).
  injection Hclear as <- <-. simpl in *.
  repeat split; auto.
Qed.

Lemma ail_process_rebinds st blk (e1 e2 : SimEngineLight (Block V) (Expr V)) :
  engine_type e1 = engine_type e2 ->
  stmt_idx e1 = stmt_idx e2 ->
  ins_addr e1 = ins_addr e2 ->
  process _process st blk e1 = process _process st blk e2.
Proof.
  intros He Hs Hi. unfold process, _process. unfold bind at 1 3.
  rewrite !ail_bind_context_run, He, Hs, Hi. reflexivity.
Qed.

Lemma ail_reaches_le (self : SimEngineLight (Block V) (Expr V))
    (stmts : list (Statement V)) i j :
  (i <= j)%nat -> reaches self stmts j -> reaches self stmts i.
Proof.
  unfold reaches. intros Hij.
  replace (take j stmts) with (take i stmts ++ drop i (take j stmts)).
  2:{ rewrite <- (take_drop i (take j stmts)) at 2. rewrite take_take.
      f_equal. f_equal. lia. }
  rewrite ail_process_Stmt_from_app. unfold bind, outcome.
  destruct (_process_Stmt_from 0 (take i stmts) self) as [[[[]|x] s1] w1];
    [reflexivity|]. simpl. discriminate.
Qed.

(** The call of [process], cut where the handler of statement [j] is
    called. *)
Lemma ail_process_cut st (b : Block V) (self : SimEngineLight (Block V) (Expr V))
    j stmt s_j w_j :
  statements b !! j = Some stmt ->
  (bind_context st (Some b) ;;;
   _process_Stmt_from 0 (take j (statements b)) ;;;
   loop_head j stmt) self = (Ok tt, s_j, w_j) ->
  process _process st (Some b) self =
  (arrived s_j w_j ;;;
   _ail_handle_Stmt stmt ;;;
   _process_Stmt_from (S j) (drop (S j) (statements b)) ;;;
   clear_context) self.
Proof.
  intros Hj Ho.
  rewrite <- (bind_arrived _ _ self self _ _ Ho).
  unfold process, _process. rewrite bind_assoc.
  apply (bind_ext_at _ _ _ _ _ _ _ (ail_bind_context_run st (Some b) self)).
  set (s0 := {| engine_type := _ |}).
  unfold _process_Stmt. rewrite !bind_assoc, bind_gets. cbn [block s0].
  rewrite (bind_cong_l _ _ _ _ (ail_process_Stmt_from_cut _ j stmt s0 Hj)).
  rewrite !bind_assoc. apply bind_ext. intros _ s1.
  rewrite !bind_assoc. apply bind_ext. intros _ s2.
  rewrite !bind_assoc. reflexivity.
Qed.

(** The instance on which the handler of statement [j] is called, and the
    code location it gives. *)
Lemma ail_entry st (b : Block V) (self : SimEngineLight (Block V) (Expr V)) j stmt :
  statements b !! j = Some stmt ->
  reaches (self_after (bind_context st (Some b) self)) (statements b) j ->
  exists s_j w_j,
    (bind_context st (Some b) ;;;
     _process_Stmt_from 0 (take j (statements b)) ;;;
     loop_head j stmt) self = (Ok tt, s_j, w_j) /\
    _codeloc s_j =
      (Ok {| cl_block_addr := addr b; cl_stmt_idx := Some j;
             cl_ins_addr := Some (stmt_ins_addr stmt) |}, s_j, []).
Proof.
  intros Hj Hreach. unfold reaches in Hreach. apply outcome_Ok in Hreach.
  destruct (ail_process_Stmt_from_Ok _ _ _ _ _ Hreach) as (Hb & _).
  rewrite ail_bind_context_run in Hreach, Hb. unfold self_after at 2 in Hb.
  unfold self_after at 1 in Hreach.
  cbn [fst snd block] in Hreach, Hb.
  set (s0 := {| engine_type := _ |}) in *.
  set (s1 := self_after (_process_Stmt_from 0 (take j (statements b)) s0)) in *.
  set (w1 := logged (_process_Stmt_from 0 (take j (statements b)) s0)) in *.
  exists (set_ins_addr (Some (stmt_ins_addr stmt)) (set_stmt_idx (Some j) s1)), w1.
  split.
  - unfold bind. rewrite ail_bind_context_run. fold s0.
    rewrite Hreach, ail_loop_head_run. simpl. rewrite app_nil_r. reflexivity.
  - unfold _codeloc, bind, gets. simpl. rewrite Hb. reflexivity.
Qed.

Lemma ail_codeloc_during_Some st (b : Block V)
    (self : SimEngineLight (Block V) (Expr V)) j stmt :
  statements b !! j = Some stmt ->
  reaches (self_after (bind_context st (Some b) self)) (statements b) j ->
  codeloc_during self st b j =
    Some {| cl_block_addr := addr b; cl_stmt_idx := Some j;
            cl_ins_addr := Some (stmt_ins_addr stmt) |}.
Proof.
  intros Hj Hreach. unfold codeloc_during.
  apply (ail_codeloc_in_loop_Some _ _ _ b); [reflexivity|exact Hj|exact Hreach].
Qed.

End AILFacts.

(** In a non-decreasing list an earlier entry is at most a later one. *)
Lemma StronglySorted_lookup_le (l : list Z) i j x y :
  StronglySorted Z.le l -> (i < j)%nat -> l !! i = Some x -> l !! j = Some y -> x <= y.
Proof.
  intros Hl Hij Hi Hj. rewrite <- (take_drop j l) in Hl.
  eapply StronglySorted_app_1_elem_of; [exact Hl| |].
  - apply elem_of_take. eauto.
  - apply (list_elem_of_lookup_2 _ 0%nat). rewrite lookup_drop, Nat.add_0_r. exact Hj.
Qed.

(** ** The specification, statement by statement *)

Section Claims.
Context {V : Type} `{!Arith V}.
Variable ops : gmap string VEX.SimIROp.

(** C5. In both dialects, with the temp table of a call in place, reading
    a temp that is absent from the table evaluates to unknown ([None])
    without raising and without touching the instance, and reading a temp
    that is present evaluates to exactly the stored entry. *)
Theorem temp_read_total :
  (forall (self : VEX.SimEngineLightVEX V) table tmp,
      tmps (VEX.base self) = Some table ->
      (table !! tmp = None ->
         VEX._expr ops (VEX.RdTmp tmp) self = (Ok None, self, [])) /\
      (forall v, table !! tmp = Some v ->
         VEX._expr ops (VEX.RdTmp tmp) self = (Ok (Some v), self, []))) /\
  (forall (self : SimEngineLight (AIL.Block V) (AIL.Expr V)) table idx tmp_idx bits tags,
      tmps self = Some table ->
      (table !! tmp_idx = None ->
         AIL._expr (AIL.Tmp idx tmp_idx bits tags) self = (Ok None, self, [])) /\
      (forall v, table !! tmp_idx = Some v ->
         AIL._expr (AIL.Tmp idx tmp_idx bits tags) self = (Ok (Some v), self, []))).
Proof.
  split.
  - intros self table tmp Ht.
    assert (Hrun : VEX._expr ops (VEX.RdTmp tmp) self = (Ok (table !! tmp), self, [])).
    { rewrite _expr_eq. simpl. unfold bind, gets. rewrite Ht. reflexivity. }
    split; [intros Hn|intros v Hv]; rewrite Hrun; congruence.
  - intros self table idx tmp_idx bits tags Ht.
    assert (Hrun : AIL._expr (AIL.Tmp idx tmp_idx bits tags) self =
                   (Ok (table !! tmp_idx), self, [])).
    { rewrite ail_expr_eq. simpl. unfold bind, gets. rewrite Ht.
      destruct (table !! tmp_idx); reflexivity. }
    split; [intros Hn|intros v Hv]; rewrite Hrun; congruence.
Qed.

(** C9. In dialect A, when the right-hand side of a [WrTmp] evaluates to
    unknown, the statement returns without changing the instance, so the
    temp table is untouched and a value stored earlier under the same temp
    id is still what a later read returns. *)
Theorem WrTmp_unknown_keeps_table (self s : VEX.SimEngineLightVEX V) tmp data w :
  VEX._expr ops data self = (Ok None, s, w) ->
  VEX._handle_Stmt ops (VEX.WrTmp tmp data) self = (Ok tt, self, w) /\
  forall table v, tmps (VEX.base self) = Some table -> table !! tmp = Some v ->
    VEX._expr ops (VEX.RdTmp tmp)
      (self_after (VEX._handle_Stmt ops (VEX.WrTmp tmp data) self))
    = (Ok (Some v), self, []).
Proof.
  intros Hd.
  assert (s = self) as ->.
  { pose proof (observer_expr ops data self) as Ho. rewrite Hd in Ho. exact Ho. }
  assert (Hrun : VEX._handle_Stmt ops (VEX.WrTmp tmp data) self = (Ok tt, self, w)).
  { unfold VEX._handle_Stmt. simpl. unfold bind. rewrite Hd. simpl.
    rewrite app_nil_r. reflexivity. }
  split; [exact Hrun|]. intros table v Ht Hv. rewrite Hrun.
  unfold self_after. cbn [fst snd].
  rewrite _expr_eq. simpl. unfold bind, gets. rewrite Ht, Hv. reflexivity.
Qed.


(** C2. In dialect A, for an Add or a Sub node with operands [a0] and
    [a1]: when [a0] evaluates to unknown the node evaluates to unknown
    with only the effects of [a0] ([a1] is not evaluated, whatever it would
    do); when [a0] has a value and [a1] evaluates to unknown the node
    evaluates to unknown; when both have values the arithmetic is tried,
    and a [TypeError] of [+] or [-] gives unknown instead of a raise. *)
Theorem Add_Sub_propagate_unknown (self : VEX.SimEngineLightVEX V)
    (width : string) (a0 a1 : VEX.IRExpr V) :
  let add := VEX._expr ops (VEX.Binop ("Iop_Add" +:+ width) [a0; a1]) self in
  let sub := VEX._expr ops (VEX.Binop ("Iop_Sub" +:+ width) [a0; a1]) self in
  (forall s0 w0,
     VEX._expr ops a0 self = (Ok None, s0, w0) ->
     add = (Ok None, s0, w0) /\ sub = (Ok None, s0, w0)) /\
  (forall v0 s0 w0 s1 w1,
     VEX._expr ops a0 self = (Ok (Some v0), s0, w0) ->
     VEX._expr ops a1 s0 = (Ok None, s1, w1) ->
     add = (Ok None, s1, w0 ++ w1) /\ sub = (Ok None, s1, w0 ++ w1)) /\
  (forall v0 v1 s0 w0 s1 w1,
     VEX._expr ops a0 self = (Ok (Some v0), s0, w0) ->
     VEX._expr ops a1 s0 = (Ok (Some v1), s1, w1) ->
     add = (match py_add v0 v1 with
            | Some r => Ok (Some r)
            | None => Ok None
            end, s1, w0 ++ w1) /\
     sub = (match py_sub v0 v1 with
            | Some r => Ok (Some r)
            | None => Ok None
            end, s1, w0 ++ w1)).
Proof.
  cbv zeta.
  rewrite expr_Binop_Add, expr_Binop_Sub. unfold VEX._handle_Add, VEX._handle_Sub.
  split; [|split].
  - intros s0 w0 H0. rewrite !(bind_Ok _ _ _ _ _ _ H0). simpl.
    rewrite app_nil_r. split; reflexivity.
  - intros v0 s0 w0 s1 w1 H0 H1.
    rewrite !(bind_Ok _ _ _ _ _ _ H0), !(bind_Ok _ _ _ _ _ _ H1). simpl.
    rewrite app_nil_r. split; reflexivity.
  - intros v0 v1 s0 w0 s1 w1 H0 H1.
    rewrite !(bind_Ok _ _ _ _ _ _ H0), !(bind_Ok _ _ _ _ _ _ H1).
    split; [destruct (py_add v0 v1)|destruct (py_sub v0 v1)];
      simpl; rewrite app_nil_r; reflexivity.
Qed.

(** C4. Every capability the base engine leaves open raises
    [NotImplementedError] when a node reaches it ([Put], [Store], [Get],
    [Load] in dialect A; [Jump], [Call], [Load] in dialect B), with nothing
    logged; a statement or an expression of a class for which the engine
    has no handler returns instead ([None] for an expression) with exactly
    one warning logged.  A raise and a return are different outcomes. *)
Theorem missing_capability_is_fatal_unsupported_is_not :
  (forall (self : VEX.SimEngineLightVEX V),
     (forall data offset,
        VEX._handle_Stmt ops (VEX.Put data offset) self =
          (Raise (NotImplementedError
             "Please implement the Put handler with your own logic."), self, [])) /\
     (forall a data end_,
        VEX._handle_Stmt ops (VEX.Store a data end_) self =
          (Raise (NotImplementedError
             "Please implement the Store handler with your own logic."), self, [])) /\
     (forall offset ty,
        VEX._expr ops (VEX.Get offset ty) self =
          (Raise (NotImplementedError
             "Please implement the Get handler with your own logic."), self, [])) /\
     (forall end_ ty a,
        VEX._expr ops (VEX.Load end_ ty a) self =
          (Raise (NotImplementedError
             "Please implement the Load handler with your own logic."), self, [])) /\
     (forall cls, VEX.getattr ("_handle_" +:+ cls) = None ->
        VEX._handle_Stmt ops (VEX.OtherStmt cls) self =
          (Ok tt, self, [Warning "Unsupported statement type %s." cls])) /\
     (forall cls args, VEX.getattr ("_handle_" +:+ cls) = None ->
        VEX._expr ops (VEX.OtherExpr cls args) self =
          (Ok None, self, [Warning "Unsupported expression type %s." cls]))) /\
  (forall (self : SimEngineLight (AIL.Block V) (AIL.Expr V)),
     (forall idx target ins_addr,
        AIL._ail_handle_Stmt (AIL.Jump idx target ins_addr) self =
          (Raise (NotImplementedError
             "Please implement the Jump handler with your own logic."), self, [])) /\
     (forall idx target ins_addr,
        AIL._ail_handle_Stmt (AIL.Call idx target ins_addr) self =
          (Raise (NotImplementedError
             "Please implement the Call handler with your own logic."), self, [])) /\
     (forall idx a size endness tags,
        AIL._expr (AIL.Load idx a size endness tags) self =
          (Raise (NotImplementedError
             "Please implement the Load handler with your own logic."), self, [])) /\
     (forall cls idx ins_addr, AIL.getattr ("_ail_handle_" +:+ cls) = None ->
        AIL._ail_handle_Stmt (AIL.OtherStmt cls idx ins_addr) self =
          (Ok tt, self, [Warning "Unsupported statement type %s." cls])) /\
     (forall cls idx tags, AIL.getattr ("_ail_handle_" +:+ cls) = None ->
        AIL._expr (AIL.OtherExpr cls idx tags) self =
          (Ok None, self, [Warning "Unsupported expression type %s." cls]))) /\
  (forall (A : Type) (x : exn) (a : A), Raise x <> Ok a).
Proof.
  split; [|split].
  - intros self. repeat split; try reflexivity.
    + intros cls Hcls. unfold VEX._handle_Stmt. cbn [VEX.stmt_type_name].
      rewrite Hcls. reflexivity.
    + intros cls args Hcls. rewrite _expr_eq. cbn [VEX.expr_type_name].
      rewrite Hcls. reflexivity.
  - intros self. repeat split; try reflexivity.
    + intros cls idx ins_addr Hcls. unfold AIL._ail_handle_Stmt. cbn [AIL.stmt_type_name].
      rewrite Hcls. reflexivity.
    + intros cls idx tags Hcls. rewrite ail_expr_eq. cbn [AIL.expr_type_name].
      rewrite Hcls. reflexivity.
  - discriminate.
Qed.

(** C1. In dialect B an Add or a Sub node never evaluates to unknown.
    Both operands are evaluated; an operand that evaluates to unknown is
    replaced by the operand expression itself; then either the arithmetic
    succeeds and its result is returned, or it is a [TypeError] and the
    result is a new [BinaryOp] with the node's index, the same operator,
    the two (evaluated or original) operands in their order and the node's
    tags.  Whatever is returned is an object that is not a node, or such a
    [BinaryOp]. *)
Theorem Add_Sub_fold_or_preserve (self : SimEngineLight (AIL.Block V) (AIL.Expr V))
    (idx : Z) (a0 a1 : AIL.Expr V) (tags : AIL.Tags) :
  let add := AIL._expr (AIL.BinaryOp idx "Add" [a0; a1] tags) self in
  let sub := AIL._expr (AIL.BinaryOp idx "Sub" [a0; a1] tags) self in
  (outcome add <> Ok None /\ outcome sub <> Ok None) /\
  (forall r0 s0 w0 r1 s1 w1,
     AIL._expr a0 self = (Ok r0, s0, w0) ->
     AIL._expr a1 s0 = (Ok r1, s1, w1) ->
     let x0 := default a0 r0 in
     let x1 := default a1 r1 in
     add = (Ok (Some (match AIL.expr_add x0 x1 with
                      | Some v => v
                      | None => AIL.BinaryOp idx "Add" [x0; x1] tags
                      end)), s1, w0 ++ w1) /\
     sub = (Ok (Some (match AIL.expr_sub x0 x1 with
                      | Some v => v
                      | None => AIL.BinaryOp idx "Sub" [x0; x1] tags
                      end)), s1, w0 ++ w1)) /\
  (forall r,
     (outcome add = Ok (Some r) ->
        (exists v, r = AIL.Prim v) \/
        (exists x0 x1, r = AIL.BinaryOp idx "Add" [x0; x1] tags)) /\
     (outcome sub = Ok (Some r) ->
        (exists v, r = AIL.Prim v) \/
        (exists x0 x1, r = AIL.BinaryOp idx "Sub" [x0; x1] tags))).
Proof.
  cbv zeta.
  assert (Hadd : AIL._expr (AIL.BinaryOp idx "Add" [a0; a1] tags) self =
                 AIL._ail_handle_Add AIL._expr (AIL.BinaryOp idx "Add" [a0; a1] tags) self)
    by (rewrite ail_expr_eq; reflexivity).
  assert (Hsub : AIL._expr (AIL.BinaryOp idx "Sub" [a0; a1] tags) self =
                 AIL._ail_handle_Sub AIL._expr (AIL.BinaryOp idx "Sub" [a0; a1] tags) self)
    by (rewrite ail_expr_eq; reflexivity).
  rewrite Hadd, Hsub. clear Hadd Hsub. unfold AIL._ail_handle_Add, AIL._ail_handle_Sub.
  assert (Hprim : forall x y r, AIL.expr_add (V:=V) x y = Some r -> exists v, r = AIL.Prim v).
  { intros [] [] r; simpl; try discriminate.
    destruct (py_add v v0); simpl; [|discriminate]. intros [= <-]. eauto. }
  assert (Hprim' : forall x y r, AIL.expr_sub (V:=V) x y = Some r -> exists v, r = AIL.Prim v).
  { intros [] [] r; simpl; try discriminate.
    destruct (py_sub v v0); simpl; [|discriminate]. intros [= <-]. eauto. }
  split; [|split].
  - unfold bind, outcome.
    destruct (AIL._expr a0 self) as [[[r0|x] s0] w0]; [|split; discriminate].
    destruct (AIL._expr a1 s0) as [[[r1|x] s1] w1]; [|split; discriminate].
    split.
    + destruct (AIL.expr_add _ _); simpl; discriminate.
    + destruct (AIL.expr_sub _ _); simpl; discriminate.
  - intros r0 s0 w0 r1 s1 w1 H0 H1.
    rewrite !(bind_Ok _ _ _ _ _ _ H0), !(bind_Ok _ _ _ _ _ _ H1).
    unfold default. split.
    + destruct r0, r1; cbn [id];
        match goal with |- context [AIL.expr_add ?x ?y] =>
          destruct (AIL.expr_add x y) end; simpl; rewrite app_nil_r; reflexivity.
    + destruct r0, r1; cbn [id];
        match goal with |- context [AIL.expr_sub ?x ?y] =>
          destruct (AIL.expr_sub x y) end; simpl; rewrite app_nil_r; reflexivity.
  - intros r. unfold bind, outcome.
    destruct (AIL._expr a0 self) as [[[r0|x] s0] w0]; [|split; discriminate].
    destruct (AIL._expr a1 s0) as [[[r1|x] s1] w1]; [|split; discriminate].
    split.
    + destruct (AIL.expr_add _ _) eqn:Ha; simpl; intros [= <-]; eauto.
    + destruct (AIL.expr_sub _ _) eqn:Ha; simpl; intros [= <-]; eauto.
Qed.

(** C6. In dialect A, an [IMark] sets the current instruction address to
    its [addr + delta].  In a call of [process] on a block whose statements
    are [pre ++ IMark a len delta :: mid ++ post], with no marker in [mid],
    the handler of the marker and of every statement of [mid] is called on
    an instance whose code location carries [a + delta], provided the loop
    gets as far as the statement (no earlier statement raised): the call of
    [process] is the run up to that statement, which leaves the instance
    [s_j], followed by the handler of the statement on [s_j], the rest of
    the loop and the reset.  For the statements
    [[IMark 0x1000 0; S1; IMark 0x1000 4; S2]] with [S1] and [S2] no
    markers, [S1] is always reached and is handled at instruction address
    [0x1000], and [S2], once [S1] has returned, at [0x1004]. *)
Theorem marker_sets_ins_addr :
  (forall (self : VEX.SimEngineLightVEX V) st b pre a len delta mid post k,
     VEX.statements (VEX.vex b) = pre ++ VEX.IMark a len delta :: mid ++ post ->
     Forall (fun s => VEX.mark_addr s = None) mid ->
     (k <= length mid)%nat ->
     let stmts := VEX.statements (VEX.vex b) in
     let j := (length pre + k)%nat in
     let loc := {| cl_block_addr := VEX.addr b; cl_stmt_idx := Some j;
                   cl_ins_addr := Some (a + delta) |} in
     VEX.reaches ops (self_after (VEX.bind_context st b self)) stmts j ->
     exists stmt s_j w_j,
       stmts !! j = Some stmt /\
       (VEX.bind_context st b ;;;
        VEX._process_Stmt_from ops 0 (take j stmts) ;;;
        VEX.loop_head j stmt) self = (Ok tt, s_j, w_j) /\
       process (VEX._process ops) st (Some b) self =
         (arrived s_j w_j ;;;
          VEX._handle_Stmt ops stmt ;;;
          VEX._process_Stmt_from ops (S j) (drop (S j) stmts) ;;;
          VEX.clear_context) self /\
       VEX._codeloc s_j = (Ok loc, s_j, []) /\
       VEX.codeloc_during ops self st b j = Some loc) /\
  (forall (self : VEX.SimEngineLightVEX V) st b len0 len1 S1 S2,
     VEX.statements (VEX.vex b) =
       [VEX.IMark 0x1000 len0 0; S1; VEX.IMark 0x1000 len1 4; S2] ->
     VEX.mark_addr S1 = None ->
     VEX.mark_addr S2 = None ->
     (exists s_1 w_1,
        (VEX.bind_context st b ;;;
         VEX._process_Stmt_from ops 0 [VEX.IMark 0x1000 len0 0] ;;;
         VEX.loop_head 1 S1) self = (Ok tt, s_1, w_1) /\
        process (VEX._process ops) st (Some b) self =
          (arrived s_1 w_1 ;;;
           VEX._handle_Stmt ops S1 ;;;
           VEX._process_Stmt_from ops 2 [VEX.IMark 0x1000 len1 4; S2] ;;;
           VEX.clear_context) self /\
        VEX._codeloc s_1 =
          (Ok {| cl_block_addr := VEX.addr b; cl_stmt_idx := Some 1%nat;
                 cl_ins_addr := Some 0x1000 |}, s_1, [])) /\
     (VEX.reaches ops (self_after (VEX.bind_context st b self))
        (VEX.statements (VEX.vex b)) 3 ->
      exists s_3 w_3,
        (VEX.bind_context st b ;;;
         VEX._process_Stmt_from ops 0
           [VEX.IMark 0x1000 len0 0; S1; VEX.IMark 0x1000 len1 4] ;;;
         VEX.loop_head 3 S2) self = (Ok tt, s_3, w_3) /\
        process (VEX._process ops) st (Some b) self =
          (arrived s_3 w_3 ;;;
           VEX._handle_Stmt ops S2 ;;;
           VEX._process_Stmt_from ops 4 [] ;;;
           VEX.clear_context) self /\
        VEX._codeloc s_3 =
          (Ok {| cl_block_addr := VEX.addr b; cl_stmt_idx := Some 3%nat;
                 cl_ins_addr := Some 0x1004 |}, s_3, []))).
Proof.
  assert (Hgen : forall (self : VEX.SimEngineLightVEX V) st b pre a len delta mid post k,
     VEX.statements (VEX.vex b) = pre ++ VEX.IMark a len delta :: mid ++ post ->
     Forall (fun s => VEX.mark_addr s = None) mid ->
     (k <= length mid)%nat ->
     let stmts := VEX.statements (VEX.vex b) in
     let j := (length pre + k)%nat in
     let loc := {| cl_block_addr := VEX.addr b; cl_stmt_idx := Some j;
                   cl_ins_addr := Some (a + delta) |} in
     VEX.reaches ops (self_after (VEX.bind_context st b self)) stmts j ->
     exists stmt s_j w_j,
       stmts !! j = Some stmt /\
       (VEX.bind_context st b ;;;
        VEX._process_Stmt_from ops 0 (take j stmts) ;;;
        VEX.loop_head j stmt) self = (Ok tt, s_j, w_j) /\
       process (VEX._process ops) st (Some b) self =
         (arrived s_j w_j ;;;
          VEX._handle_Stmt ops stmt ;;;
          VEX._process_Stmt_from ops (S j) (drop (S j) stmts) ;;;
          VEX.clear_context) self /\
       VEX._codeloc s_j = (Ok loc, s_j, []) /\
       VEX.codeloc_during ops self st b j = Some loc).
  { intros self st b pre a len delta mid post k Hstmts Hmid Hk stmts j loc Hreach.
    assert (Hlook : is_Some (stmts !! j)).
    { apply lookup_lt_is_Some_2. subst stmts j. rewrite Hstmts, length_app. simpl.
      rewrite length_app. lia. }
    destruct Hlook as [stmt Hj].
    assert (Hlast : VEX.last_mark (take (S j) stmts) (ins_addr (VEX.base self))
                    = Some (a + delta)).
    { subst stmts j. rewrite Hstmts.
      replace (S (length pre + k)) with (length pre + S k)%nat by lia.
      rewrite take_app_add. simpl. rewrite (take_app_le mid post k Hk).
      rewrite last_mark_app, last_mark_cons.
      apply last_mark_no_marks, Forall_take, Hmid. }
    destruct (vex_entry ops st b self j stmt Hj Hreach) as (s_j & w_j & Ho & Hc).
    fold stmts in Ho, Hc. rewrite Hlast in Hc.
    exists stmt, s_j, w_j. repeat split.
    - exact Hj.
    - exact Ho.
    - apply vex_process_cut; assumption.
    - exact Hc.
    - rewrite (codeloc_during_Some ops st b self j stmt Hj Hreach).
      fold stmts. rewrite Hlast. reflexivity. }
  split; [exact Hgen|].
  intros self st b len0 len1 S1 S2 Hstmts HS1 HS2.
  split.
  - destruct (Hgen self st b [] 0x1000 len0 0 [S1] [VEX.IMark 0x1000 len1 4; S2] 1%nat)
      as (stmt & s_1 & w_1 & Hj & Ho & Hp & Hc & _).
    + exact Hstmts.
    + repeat constructor. exact HS1.
    + simpl. lia.
    + unfold VEX.reaches. rewrite Hstmts. reflexivity.
    + rewrite Hstmts in Hj, Ho, Hp. injection Hj as <-.
      exists s_1, w_1. repeat split; assumption.
  - intros Hreach.
    destruct (Hgen self st b [VEX.IMark 0x1000 len0 0; S1] 0x1000 len1 4 [S2] [] 1%nat)
      as (stmt & s_3 & w_3 & Hj & Ho & Hp & Hc & _).
    + exact Hstmts.
    + repeat constructor. exact HS2.
    + simpl. lia.
    + exact Hreach.
    + rewrite Hstmts in Hj, Ho, Hp. injection Hj as <-.
      exists s_3, w_3. repeat split; assumption.
Qed.



(** C8, as the code has it.  The instruction address seen while a statement
    is handled is the one the block supplies: in a call of [process] the
    handler of statement [j] is called on an instance whose code location
    carries, in dialect B, the statement's own address and, in dialect A,
    the [addr + delta] of the latest marker at or before [j] (with no such
    marker, the address the instance had on entry).  So when the block's
    addresses are in non-decreasing order (the markers' [addr + delta] in
    dialect A, the statements' [ins_addr] in dialect B), the address seen at
    statement [i] is at most the one seen at any later statement [j]; in
    dialect A from the first marker on. *)
Theorem ordered_blocks_keep_ins_addr_order :
  (forall (self : VEX.SimEngineLightVEX V) st b j stmt_j,
     let stmts := VEX.statements (VEX.vex b) in
     stmts !! j = Some stmt_j ->
     VEX.reaches ops (self_after (VEX.bind_context st b self)) stmts j ->
     exists s_j w_j,
       (VEX.bind_context st b ;;;
        VEX._process_Stmt_from ops 0 (take j stmts) ;;;
        VEX.loop_head j stmt_j) self = (Ok tt, s_j, w_j) /\
       process (VEX._process ops) st (Some b) self =
         (arrived s_j w_j ;;;
          VEX._handle_Stmt ops stmt_j ;;;
          VEX._process_Stmt_from ops (S j) (drop (S j) stmts) ;;;
          VEX.clear_context) self /\
       VEX._codeloc s_j =
         (Ok {| cl_block_addr := VEX.addr b; cl_stmt_idx := Some j;
                cl_ins_addr := VEX.last_mark (take (S j) stmts)
                                 (ins_addr (VEX.base self)) |}, s_j, []) /\
       (Sorted Z.le (VEX.marks stmts) ->
        forall i k s a0,
          stmts !! k = Some s ->
          VEX.mark_addr s = Some a0 ->
          (k <= i)%nat -> (i < j)%nat ->
          exists stmt_i s_i w_i a a',
            stmts !! i = Some stmt_i /\
            (VEX.bind_context st b ;;;
             VEX._process_Stmt_from ops 0 (take i stmts) ;;;
             VEX.loop_head i stmt_i) self = (Ok tt, s_i, w_i) /\
            process (VEX._process ops) st (Some b) self =
              (arrived s_i w_i ;;;
               VEX._handle_Stmt ops stmt_i ;;;
               VEX._process_Stmt_from ops (S i) (drop (S i) stmts) ;;;
               VEX.clear_context) self /\
            VEX._codeloc s_i =
              (Ok {| cl_block_addr := VEX.addr b; cl_stmt_idx := Some i;
                     cl_ins_addr := Some a |}, s_i, []) /\
            VEX._codeloc s_j =
              (Ok {| cl_block_addr := VEX.addr b; cl_stmt_idx := Some j;
                     cl_ins_addr := Some a' |}, s_j, []) /\
            VEX.codeloc_during ops self st b i =
              Some {| cl_block_addr := VEX.addr b; cl_stmt_idx := Some i;
                      cl_ins_addr := Some a |} /\
            VEX.codeloc_during ops self st b j =
              Some {| cl_block_addr := VEX.addr b; cl_stmt_idx := Some j;
                      cl_ins_addr := Some a' |} /\
            a <= a')) /\
  (forall (self : SimEngineLight (AIL.Block V) (AIL.Expr V)) st b j stmt_j,
     let stmts := AIL.statements b in
     stmts !! j = Some stmt_j ->
     AIL.reaches (self_after (AIL.bind_context st (Some b) self)) stmts j ->
     exists s_j w_j,
       (AIL.bind_context st (Some b) ;;;
        AIL._process_Stmt_from 0 (take j stmts) ;;;
        AIL.loop_head j stmt_j) self = (Ok tt, s_j, w_j) /\
       process AIL._process st (Some b) self =
         (arrived s_j w_j ;;;
          AIL._ail_handle_Stmt stmt_j ;;;
          AIL._process_Stmt_from (S j) (drop (S j) stmts) ;;;
          AIL.clear_context) self /\
       AIL._codeloc s_j =
         (Ok {| cl_block_addr := AIL.addr b; cl_stmt_idx := Some j;
                cl_ins_addr := Some (AIL.stmt_ins_addr stmt_j) |}, s_j, []) /\
       AIL.codeloc_during self st b j =
         Some {| cl_block_addr := AIL.addr b; cl_stmt_idx := Some j;
                 cl_ins_addr := Some (AIL.stmt_ins_addr stmt_j) |} /\
       (Sorted Z.le (AIL.stmt_ins_addr <$> stmts) ->
        forall i, (i < j)%nat ->
          exists stmt_i s_i w_i,
            stmts !! i = Some stmt_i /\
            (AIL.bind_context st (Some b) ;;;
             AIL._process_Stmt_from 0 (take i stmts) ;;;
             AIL.loop_head i stmt_i) self = (Ok tt, s_i, w_i) /\
            process AIL._process st (Some b) self =
              (arrived s_i w_i ;;;
               AIL._ail_handle_Stmt stmt_i ;;;
               AIL._process_Stmt_from (S i) (drop (S i) stmts) ;;;
               AIL.clear_context) self /\
            AIL._codeloc s_i =
              (Ok {| cl_block_addr := AIL.addr b; cl_stmt_idx := Some i;
                     cl_ins_addr := Some (AIL.stmt_ins_addr stmt_i) |}, s_i, []) /\
            AIL.codeloc_during self st b i =
              Some {| cl_block_addr := AIL.addr b; cl_stmt_idx := Some i;
                      cl_ins_addr := Some (AIL.stmt_ins_addr stmt_i) |} /\
            AIL.stmt_ins_addr stmt_i <= AIL.stmt_ins_addr stmt_j)).
Proof.
  split.
  - intros self st b j stmt_j stmts Hj Hreach.
    destruct (vex_entry ops st b self j stmt_j Hj Hreach) as (s_j & w_j & Ho & Hc).
    fold stmts in Ho, Hc.
    exists s_j, w_j. split; [exact Ho|]. split; [apply vex_process_cut; assumption|].
    split; [exact Hc|].
    intros Hsorted i k s a0 Hk Hmark Hki Hij.
    apply Sorted_StronglySorted in Hsorted; [|intros x y z; apply Z.le_trans].
    assert (Hlook : is_Some (stmts !! i)).
    { apply lookup_lt_is_Some_2. apply lookup_lt_Some in Hj. lia. }
    destruct Hlook as [stmt_i Hi].
    assert (Hreach_i : VEX.reaches ops (self_after (VEX.bind_context st b self)) stmts i).
    { apply (reaches_le ops _ _ i j); [lia|exact Hreach]. }
    destruct (vex_entry ops st b self i stmt_i Hi Hreach_i) as (s_i & w_i & Hoi & Hci).
    fold stmts in Hoi, Hci.
    assert (Hsplit : take (S j) stmts =
                     take (S i) stmts ++ drop (S i) (take (S j) stmts)).
    { rewrite <- (take_drop (S i) (take (S j) stmts)) at 1.
      rewrite take_take. f_equal. f_equal. lia. }
    destruct (last_mark_sorted (take (S i) stmts) (drop (S i) (take (S j) stmts))
                (ins_addr (VEX.base self))) as (a & a' & Ha & Ha' & Hle).
    + rewrite <- Hsplit. rewrite <- (take_drop (S j) stmts) in Hsorted.
      unfold VEX.marks in *. rewrite omap_app in Hsorted.
      eapply StronglySorted_app_1_l, Hsorted.
    + intros Hnil. assert (Hin : a0 ∈ VEX.marks (take (S i) stmts)).
      { apply list_elem_of_omap. exists s. split; [|exact Hmark].
        apply elem_of_take. exists k. split; [exact Hk|lia]. }
      rewrite Hnil in Hin. inversion Hin.
    + rewrite <- Hsplit in Ha'.
      exists stmt_i, s_i, w_i, a, a'.
      split; [exact Hi|]. split; [exact Hoi|].
      split; [apply vex_process_cut; assumption|].
      split; [rewrite Hci, Ha; reflexivity|].
      split; [rewrite Hc, Ha'; reflexivity|].
      split; [rewrite (codeloc_during_Some ops st b self i stmt_i Hi Hreach_i);
              fold stmts; rewrite Ha; reflexivity|].
      split; [rewrite (codeloc_during_Some ops st b self j stmt_j Hj Hreach);
              fold stmts; rewrite Ha'; reflexivity|].
      exact Hle.
  - intros self st b j stmt_j stmts Hj Hreach.
    destruct (ail_entry st b self j stmt_j Hj Hreach) as (s_j & w_j & Ho & Hc).
    fold stmts in Ho.
    exists s_j, w_j. split; [exact Ho|]. split; [apply ail_process_cut; assumption|].
    split; [exact Hc|].
    split; [apply (ail_codeloc_during_Some st b self j stmt_j Hj Hreach)|].
    intros Hsorted i Hij.
    apply Sorted_StronglySorted in Hsorted; [|intros x y z; apply Z.le_trans].
    assert (Hlook : is_Some (stmts !! i)).
    { apply lookup_lt_is_Some_2. apply lookup_lt_Some in Hj. lia. }
    destruct Hlook as [stmt_i Hi].
    assert (Hreach_i : AIL.reaches (self_after (AIL.bind_context st (Some b) self)) stmts i).
    { apply (ail_reaches_le _ _ i j); [lia|exact Hreach]. }
    destruct (ail_entry st b self i stmt_i Hi Hreach_i) as (s_i & w_i & Hoi & Hci).
    fold stmts in Hoi.
    exists stmt_i, s_i, w_i.
    split; [exact Hi|]. split; [exact Hoi|].
    split; [apply ail_process_cut; assumption|].
    split; [exact Hci|].
    split; [apply (ail_codeloc_during_Some st b self i stmt_i Hi Hreach_i)|].
    apply (StronglySorted_lookup_le _ i j _ _ Hsorted Hij);
      rewrite list_lookup_fmap; [rewrite Hi|rewrite Hj]; reflexivity.
Qed.

End Claims.

(** ** The same statements at concrete inputs *)

(** The end-to-end example of dialect A: [t0 = 5; t1 = t0 + 3]. *)
Example vex_end_to_end :
  let blk := Ex.vblock
    [VEX.WrTmp 0 (Ex.vconst 5);
     VEX.WrTmp 1 (VEX.Binop "Iop_Add64" [VEX.RdTmp 0; Ex.vconst 3])] in
  let run := process (VEX._process VEX.some_operations) Ex.st0 (Some blk) VEX.new in
  outcome run = Ok tt /\
  tmps (VEX.base (self_after run)) = Some (<[1 := PyInt 8]> {[ 0 := PyInt 5 ]}).
Proof. split; reflexivity. Qed.

(** [process] without a block: dialect A asserts, dialect B fails on
    [self.block.statements]. *)
Example process_without_block :
  outcome (process (VEX._process VEX.some_operations) Ex.st0 None (VEX.new (V:=builtin)))
    = Raise AssertionError /\
  outcome (process AIL._process Ex.st0 None (AIL.new (V:=builtin)))
    = Raise AttributeError.
Proof. split; reflexivity. Qed.

(** One statement without a handler after one with: the call returns, one
    warning is logged, the temp assignment is the only effect. *)
Example unsupported_statement_is_skipped :
  let blk := Ex.vblock [VEX.WrTmp 0 (Ex.vconst 5); VEX.OtherStmt "AbiHint"] in
  process (VEX._process VEX.some_operations) Ex.st0 (Some blk) VEX.new =
    (Ok tt,
     {| VEX.base := {| engine_type := "vex"; state := Some Ex.st0;
                       arch := Some Ex.amd64; block := Some blk;
                       stmt_idx := None; ins_addr := None;
                       tmps := Some {[ 0 := PyInt 5 ]} |};
        VEX.tyenv := Some ["Ity_I64"] |},
     [Warning "Unsupported statement type %s." "AbiHint"]).
Proof. reflexivity. Qed.

(** The temp table of a call starts empty whatever the previous call left. *)
Example second_call_fresh_table :
  let first := process (VEX._process VEX.some_operations) Ex.st0
                 (Some (Ex.vblock [VEX.WrTmp 0 (Ex.vconst 5)])) VEX.new in
  let second := process (VEX._process VEX.some_operations) Ex.st0
                  (Some (Ex.vblock [VEX.WrTmp 1 (VEX.RdTmp 0)])) (self_after first) in
  outcome second = Ok tt /\ tmps (VEX.base (self_after second)) = Some ∅.
Proof. split; reflexivity. Qed.

(** Dialect B with an operand the base engine cannot read: the raise of
    the [Load] handler leaves the Add handler. *)
Example Add_of_Load_raises :
  outcome (AIL._expr (AIL.BinaryOp 7 "Add" [Ex.aconst 5; Ex.aload] []) Ex.aself)
    = Raise (NotImplementedError "Please implement the Load handler with your own logic.").
Proof. reflexivity. Qed.

Lemma temp_read_total_witness :
  VEX._expr VEX.some_operations (VEX.RdTmp 7) Ex.vself = (Ok None, Ex.vself, []) /\
  VEX._expr VEX.some_operations (VEX.RdTmp 0) Ex.vself
    = (Ok (Some (PyInt 5)), Ex.vself, []) /\
  AIL._expr (Ex.atmp 7) Ex.aself = (Ok None, Ex.aself, []) /\
  AIL._expr (Ex.atmp 0) Ex.aself = (Ok (Some (AIL.Prim (PyInt 5))), Ex.aself, []).
Proof.
  destruct (temp_read_total (V:=builtin) VEX.some_operations) as [HA HB].
  destruct (HA Ex.vself {[ 0 := PyInt 5 ]} 7 eq_refl) as [H1 _].
  destruct (HA Ex.vself {[ 0 := PyInt 5 ]} 0 eq_refl) as [_ H2].
  destruct (HB Ex.aself {[ 0 := AIL.Prim (PyInt 5) ]} 3 7 64 [] eq_refl) as [H3 _].
  destruct (HB Ex.aself {[ 0 := AIL.Prim (PyInt 5) ]} 3 0 64 [] eq_refl) as [_ H4].
  split; [apply H1; reflexivity|].
  split; [apply (H2 (PyInt 5)); reflexivity|].
  split; [apply H3; reflexivity|].
  apply (H4 (AIL.Prim (PyInt 5))); reflexivity.
Defined.

Lemma WrTmp_unknown_keeps_table_witness :
  VEX._handle_Stmt VEX.some_operations (VEX.WrTmp 0 (VEX.RdTmp 9)) Ex.vself
    = (Ok tt, Ex.vself, []) /\
  VEX._expr VEX.some_operations (VEX.RdTmp 0)
    (self_after (VEX._handle_Stmt VEX.some_operations (VEX.WrTmp 0 (VEX.RdTmp 9)) Ex.vself))
    = (Ok (Some (PyInt 5)), Ex.vself, []).
Proof.
  destruct (WrTmp_unknown_keeps_table (V:=builtin) VEX.some_operations
              Ex.vself Ex.vself 0 (VEX.RdTmp 9) [] eq_refl) as [H1 H2].
  split; [exact H1|].
  apply (H2 {[ 0 := PyInt 5 ]} (PyInt 5)); reflexivity.
Defined.


(** With two operands the call to [_handle_Const] of the third family
    is a call with one argument too many. *)
Example Binop_Const_family_two_operands :
  outcome (VEX._expr VEX.some_operations
             (VEX.Binop "ConstU64" [Ex.vconst 5; Ex.vconst 3]) Ex.vself)
    = Raise TypeError.
Proof. reflexivity. Qed.

Lemma Add_Sub_propagate_unknown_witness :
  (* first operand unknown, second one a register read *)
  VEX._expr VEX.some_operations
    (VEX.Binop "Iop_Add64" [VEX.RdTmp 9; VEX.Get 16 "Ity_I64"]) Ex.vself
    = (Ok None, Ex.vself, []) /\
  VEX._expr VEX.some_operations
    (VEX.Binop "Iop_Sub64" [VEX.RdTmp 9; VEX.Get 16 "Ity_I64"]) Ex.vself
    = (Ok None, Ex.vself, []) /\
  (* second operand unknown *)
  VEX._expr VEX.some_operations
    (VEX.Binop "Iop_Add64" [VEX.RdTmp 0; VEX.RdTmp 9]) Ex.vself
    = (Ok None, Ex.vself, []) /\
  (* both known *)
  VEX._expr VEX.some_operations
    (VEX.Binop "Iop_Add64" [VEX.RdTmp 0; Ex.vconst 3]) Ex.vself
    = (Ok (Some (PyInt 8)), Ex.vself, []) /\
  VEX._expr VEX.some_operations
    (VEX.Binop "Iop_Sub64" [VEX.RdTmp 0; Ex.vconst 3]) Ex.vself
    = (Ok (Some (PyInt 2)), Ex.vself, []) /\
  (* int + str and int - str are TypeErrors *)
  VEX._expr VEX.some_operations
    (VEX.Binop "Iop_Add64" [VEX.RdTmp 0; Ex.vstr "x"]) Ex.vself
    = (Ok None, Ex.vself, []) /\
  VEX._expr VEX.some_operations
    (VEX.Binop "Iop_Sub64" [VEX.RdTmp 0; Ex.vstr "x"]) Ex.vself
    = (Ok None, Ex.vself, []).
Proof.
  pose proof (Add_Sub_propagate_unknown (V:=builtin) VEX.some_operations Ex.vself "64")
    as H.
  destruct (H (VEX.RdTmp 9) (VEX.Get 16 "Ity_I64")) as (H1 & _ & _).
  destruct (H (VEX.RdTmp 0) (VEX.RdTmp 9)) as (_ & H2 & _).
  destruct (H (VEX.RdTmp 0) (Ex.vconst 3)) as (_ & _ & H3).
  destruct (H (VEX.RdTmp 0) (Ex.vstr "x")) as (_ & _ & H4).
  destruct (H1 Ex.vself [] eq_refl) as [H1a H1s].
  destruct (H2 (PyInt 5) Ex.vself [] Ex.vself [] eq_refl eq_refl) as [H2a _].
  destruct (H3 (PyInt 5) (PyInt 3) Ex.vself [] Ex.vself [] eq_refl eq_refl) as [H3a H3s].
  destruct (H4 (PyInt 5) (PyStr "x") Ex.vself [] Ex.vself [] eq_refl eq_refl) as [H4a H4s].
  repeat split; assumption.
Defined.

Lemma missing_capability_witness :
  VEX._handle_Stmt VEX.some_operations (VEX.Put (Ex.vconst 5) 16) Ex.vself
    = (Raise (NotImplementedError
         "Please implement the Put handler with your own logic."), Ex.vself, []) /\
  VEX._handle_Stmt VEX.some_operations (VEX.OtherStmt "Exit") Ex.vself
    = (Ok tt, Ex.vself, [Warning "Unsupported statement type %s." "Exit"]) /\
  VEX._expr VEX.some_operations (VEX.OtherExpr "ITE" []) Ex.vself
    = (Ok None, Ex.vself, [Warning "Unsupported expression type %s." "ITE"]) /\
  AIL._ail_handle_Stmt (AIL.Jump 0 (Ex.aconst 0x1000) 0x400000) Ex.aself
    = (Raise (NotImplementedError
         "Please implement the Jump handler with your own logic."), Ex.aself, []) /\
  AIL._ail_handle_Stmt (AIL.OtherStmt "ConditionalJump" 0 0x400000) Ex.aself
    = (Ok tt, Ex.aself, [Warning "Unsupported statement type %s." "ConditionalJump"]) /\
  AIL._expr (AIL.OtherExpr "Register" 4 []) Ex.aself
    = (Ok None, Ex.aself, [Warning "Unsupported expression type %s." "Register"]).
Proof.
  destruct (missing_capability_is_fatal_unsupported_is_not (V:=builtin)
              VEX.some_operations) as (HA & HB & _).
  destruct (HA Ex.vself) as (Hput & _ & _ & _ & Hstmt & Hexpr).
  destruct (HB Ex.aself) as (Hjump & _ & _ & Hastmt & Haexpr).
  split; [apply Hput|].
  split; [apply Hstmt; reflexivity|].
  split; [apply Hexpr; reflexivity|].
  split; [apply Hjump|].
  split; [apply Hastmt; reflexivity|].
  apply Haexpr; reflexivity.
Defined.

Lemma Add_Sub_fold_or_preserve_witness :
  (* 5 + 3 folds *)
  AIL._expr (AIL.BinaryOp 7 "Add" [Ex.aconst 5; Ex.aconst 3] [("ins_addr", 0x400010)])
    Ex.aself
    = (Ok (Some (AIL.Prim (PyInt 8))), Ex.aself, []) /\
  (* t0 - t9 with t9 undefined: t0 is folded, t9 is kept *)
  AIL._expr (AIL.BinaryOp 7 "Sub" [Ex.atmp 0; Ex.atmp 9] [("ins_addr", 0x400010)])
    Ex.aself
    = (Ok (Some (AIL.BinaryOp 7 "Sub" [AIL.Prim (PyInt 5); Ex.atmp 9]
                   [("ins_addr", 0x400010)])), Ex.aself, []).
Proof.
  destruct (Add_Sub_fold_or_preserve (V:=builtin) Ex.aself 7 (Ex.aconst 5) (Ex.aconst 3)
              [("ins_addr", 0x400010)]) as (_ & H1 & _).
  destruct (Add_Sub_fold_or_preserve (V:=builtin) Ex.aself 7 (Ex.atmp 0) (Ex.atmp 9)
              [("ins_addr", 0x400010)]) as (_ & H2 & _).
  destruct (H1 (Some (AIL.Prim (PyInt 5))) Ex.aself [] (Some (AIL.Prim (PyInt 3)))
              Ex.aself [] eq_refl eq_refl) as [H1a _].
  destruct (H2 (Some (AIL.Prim (PyInt 5))) Ex.aself [] None Ex.aself [] eq_refl eq_refl)
    as [_ H2s].
  split; [exact H1a|exact H2s].
Defined.

Lemma marker_sets_ins_addr_witness :
  let blk := Ex.vblock
    [VEX.IMark 0x1000 4 0; VEX.WrTmp 0 (Ex.vconst 5);
     VEX.IMark 0x1000 4 4; VEX.Put (VEX.RdTmp 0) 16] in
  (exists s_1 w_1,
     process (VEX._process VEX.some_operations) Ex.st0 (Some blk) VEX.new =
       (arrived s_1 w_1 ;;;
        VEX._handle_Stmt VEX.some_operations (VEX.WrTmp 0 (Ex.vconst 5)) ;;;
        VEX._process_Stmt_from VEX.some_operations 2
          [VEX.IMark 0x1000 4 4; VEX.Put (VEX.RdTmp 0) 16] ;;;
        VEX.clear_context) VEX.new /\
     outcome (VEX._codeloc s_1) =
       Ok {| cl_block_addr := 0x400000; cl_stmt_idx := Some 1%nat;
             cl_ins_addr := Some 0x1000 |}) /\
  (exists s_3 w_3,
     process (VEX._process VEX.some_operations) Ex.st0 (Some blk) VEX.new =
       (arrived s_3 w_3 ;;;
        VEX._handle_Stmt VEX.some_operations (VEX.Put (VEX.RdTmp 0) 16) ;;;
        VEX._process_Stmt_from VEX.some_operations 4 [] ;;;
        VEX.clear_context) VEX.new /\
     outcome (VEX._codeloc s_3) =
       Ok {| cl_block_addr := 0x400000; cl_stmt_idx := Some 3%nat;
             cl_ins_addr := Some 0x1004 |}).
Proof.
  cbv zeta.
  destruct (proj2 (marker_sets_ins_addr (V:=builtin) VEX.some_operations) VEX.new Ex.st0
              (Ex.vblock [VEX.IMark 0x1000 4 0; VEX.WrTmp 0 (Ex.vconst 5);
                          VEX.IMark 0x1000 4 4; VEX.Put (VEX.RdTmp 0) 16])
              4 4 (VEX.WrTmp 0 (Ex.vconst 5)) (VEX.Put (VEX.RdTmp 0) 16)
              eq_refl eq_refl eq_refl) as [H1 H3].
  split.
  - destruct H1 as (s_1 & w_1 & _ & Hp & Hc).
    exists s_1, w_1. split; [exact Hp|]. rewrite Hc. reflexivity.
  - destruct (H3 eq_refl) as (s_3 & w_3 & _ & Hp & Hc).
    exists s_3, w_3. split; [exact Hp|]. rewrite Hc. reflexivity.
Defined.



(** On a path that raises nothing is cleared at all: the statement index
    and the instruction address stay, and the next call hands the stale
    address to the statements before its first marker. *)
Example raise_leaves_context :
  let blk := Ex.vblock [VEX.IMark 0x1000 4 0; VEX.Put (Ex.vconst 5) 16] in
  let run := process (VEX._process VEX.some_operations) Ex.st0 (Some blk) VEX.new in
  outcome run
    = Raise (NotImplementedError "Please implement the Put handler with your own logic.") /\
  stmt_idx (VEX.base (self_after run)) = Some 1%nat /\
  ins_addr (VEX.base (self_after run)) = Some 0x1000 /\
  cl_ins_addr <$> VEX.codeloc_during VEX.some_operations (self_after run) Ex.st0
                    (Ex.vblock [VEX.OtherStmt "NoOp"]) 0
    = Some (Some 0x1000).
Proof. cbv zeta. repeat split; reflexivity. Qed.


(** C8 as stated fails: the engine takes the addresses as the block gives
    them, in either dialect. *)
Lemma unordered_block_counterexample :
  ~ ins_addr_monotone
      (VEX.codeloc_during VEX.some_operations VEX.new Ex.st0
         (Ex.vblock [VEX.IMark 0x2000 4 0; VEX.OtherStmt "NoOp";
                     VEX.IMark 0x1000 4 0; VEX.OtherStmt "NoOp"])) /\
  ~ ins_addr_monotone
      (AIL.codeloc_during AIL.new Ex.st0
         (Ex.ablock [AIL.Assign 0 (Ex.atmp 0) (Ex.aconst 5) 0x2000;
                     AIL.Assign 1 (Ex.atmp 1) (Ex.aconst 6) 0x1000])).
Proof.
  split.
  - intros H. specialize (H 1%nat 3%nat _ _ ltac:(lia) eq_refl eq_refl).
    simpl in H. lia.
  - intros H. specialize (H 0%nat 1%nat _ _ ltac:(lia) eq_refl eq_refl).
    simpl in H. lia.
Qed.

Lemma ordered_blocks_keep_ins_addr_order_witness :
  let vblk := Ex.vblock [VEX.IMark 0x1000 4 0; VEX.WrTmp 0 (Ex.vconst 5);
                         VEX.IMark 0x1004 4 0; VEX.OtherStmt "NoOp"] in
  let ablk := Ex.ablock [AIL.Assign 0 (Ex.atmp 0) (Ex.aconst 5) 0x1000;
                         AIL.Assign 1 (Ex.atmp 1) (Ex.aconst 6) 0x1004] in
  (exists a a',
     VEX.codeloc_during VEX.some_operations VEX.new Ex.st0 vblk 1 =
       Some {| cl_block_addr := 0x400000; cl_stmt_idx := Some 1%nat;
               cl_ins_addr := Some a |} /\
     VEX.codeloc_during VEX.some_operations VEX.new Ex.st0 vblk 3 =
       Some {| cl_block_addr := 0x400000; cl_stmt_idx := Some 3%nat;
               cl_ins_addr := Some a' |} /\
     a <= a') /\
  (exists s_1 w_1,
     process AIL._process Ex.st0 (Some ablk) AIL.new =
       (arrived s_1 w_1 ;;;
        AIL._ail_handle_Stmt (AIL.Assign 1 (Ex.atmp 1) (Ex.aconst 6) 0x1004) ;;;
        AIL._process_Stmt_from 2 [] ;;;
        AIL.clear_context) AIL.new /\
     outcome (AIL._codeloc s_1) =
       Ok {| cl_block_addr := 0x400000; cl_stmt_idx := Some 1%nat;
             cl_ins_addr := Some 0x1004 |} /\
     AIL.codeloc_during AIL.new Ex.st0 ablk 0 =
       Some {| cl_block_addr := 0x400000; cl_stmt_idx := Some 0%nat;
               cl_ins_addr := Some 0x1000 |} /\
     0x1000 <= 0x1004).
Proof.
  cbv zeta.
  destruct (ordered_blocks_keep_ins_addr_order (V:=builtin) VEX.some_operations)
    as [HA HB].
  split.
  - destruct (HA VEX.new Ex.st0
                (Ex.vblock [VEX.IMark 0x1000 4 0; VEX.WrTmp 0 (Ex.vconst 5);
                            VEX.IMark 0x1004 4 0; VEX.OtherStmt "NoOp"])
                3%nat (VEX.OtherStmt "NoOp") eq_refl eq_refl)
      as (s_j & w_j & _ & _ & _ & Hord).
    destruct (Hord ltac:(repeat constructor; simpl; lia)
                1%nat 0%nat (VEX.IMark 0x1000 4 0) 0x1000 eq_refl eq_refl
                ltac:(lia) ltac:(lia))
      as (stmt_i & s_i & w_i & a & a' & _ & _ & _ & _ & _ & Hdi & Hdj & Hle).
    exists a, a'. split; [exact Hdi|]. split; [exact Hdj|exact Hle].
  - destruct (HB AIL.new Ex.st0
                (Ex.ablock [AIL.Assign 0 (Ex.atmp 0) (Ex.aconst 5) 0x1000;
                            AIL.Assign 1 (Ex.atmp 1) (Ex.aconst 6) 0x1004])
                1%nat (AIL.Assign 1 (Ex.atmp 1) (Ex.aconst 6) 0x1004) eq_refl eq_refl)
      as (s_1 & w_1 & _ & Hp & Hc & _ & Hord).
    destruct (Hord ltac:(repeat constructor; simpl; lia) 0%nat ltac:(lia))
      as (stmt_i & s_i & w_i & Hi & _ & _ & _ & Hdi & Hle).
    injection Hi as <-.
    exists s_1, w_1. split; [exact Hp|]. split; [rewrite Hc; reflexivity|].
    split; [exact Hdi|exact Hle].
Defined.

(** * Further properties of the code *)

(** ** Dialect A *)

Section MoreVEXFacts.
Import VEX.
Context {V : Type} `{!Arith V}.
Variable ops : gmap string SimIROp.

Lemma expr_Binop (op : string) (args : list (IRExpr V)) :
  _expr ops (Binop op args) = _handle_Binop (_expr ops) (Binop op args).
Proof. rewrite _expr_eq. reflexivity. Qed.

(** On arithmetic expressions the evaluator is the reference function. *)
Lemma arith_expr_run (e : IRExpr V) :
  arith e = true ->
  forall self table, tmps (base self) = Some table ->
    _expr ops e self = (Ok (arith_value table e), self, []).
Proof.
  induction e as [tmp| | |op args IH|op args IH|con|cls args IH] using IRExpr_rect_args;
    try discriminate; intros Ha self table Ht.
  - rewrite _expr_eq. simpl. unfold bind, gets. rewrite Ht. reflexivity.
  - destruct args as [|a [|b [|c args]]]; try discriminate.
    simpl in Ha. apply andb_prop in Ha as [Ha Hb]. apply andb_prop in Ha as [Hop Ha].
    pose proof (Forall_inv IH) as IHa.
    pose proof (Forall_inv (Forall_inv_tail IH)) as IHb.
    specialize (IHa Ha self table Ht). specialize (IHb Hb self table Ht).
    rewrite expr_Binop. cbn [_handle_Binop arith_value].
    destruct (String.prefix "Iop_Add" op) eqn:Hadd.
    + cbn [star2]. unfold _handle_Add.
      rewrite (bind_Ok _ _ _ _ _ _ IHa).
      destruct (arith_value table a) as [v0|]; [|reflexivity].
      rewrite (bind_Ok _ _ _ _ _ _ IHb).
      destruct (arith_value table b) as [v1|]; [|reflexivity].
      destruct (py_add v0 v1); reflexivity.
    + simpl in Hop. rewrite Hop. cbn [star2]. unfold _handle_Sub.
      rewrite (bind_Ok _ _ _ _ _ _ IHa).
      destruct (arith_value table a) as [v0|]; [|reflexivity].
      rewrite (bind_Ok _ _ _ _ _ _ IHb).
      destruct (arith_value table b) as [v1|]; [|reflexivity].
      destruct (py_sub v0 v1); reflexivity.
  - rewrite _expr_eq. reflexivity.
Qed.

(** A [WrTmp] whose data has a value. *)
Lemma handle_WrTmp_Some (self : SimEngineLightVEX V) table tmp data v w :
  tmps (base self) = Some table ->
  _expr ops data self = (Ok (Some v), self, w) ->
  _handle_Stmt ops (WrTmp tmp data) self =
    (Ok tt, on_base (set_tmps (Some (<[tmp := v]> table))) self, w).
Proof.
  intros Ht Hd. unfold _handle_Stmt. cbn [stmt_type_name].
  change (getattr ("_handle_" +:+ "WrTmp")) with (Some hWrTmp).
  cbn [call_stmt _handle_WrTmp].
  rewrite (bind_Ok _ _ _ _ _ _ Hd). unfold bind, gets, modify, outcome, self_after, logged.
  simpl. rewrite Ht. simpl. rewrite app_nil_r. reflexivity.
Qed.

Lemma RdTmp_run (self : SimEngineLightVEX V) table tmp :
  tmps (base self) = Some table ->
  _expr ops (RdTmp tmp) self = (Ok (table !! tmp), self, []).
Proof.
  intros Ht. rewrite _expr_eq. simpl. unfold bind, gets. rewrite Ht. reflexivity.
Qed.

(** [process] on a block is the loop run on the bound instance, followed,
    when the loop returns, by the two resets. *)
Lemma vex_process_unfold st (b : Block V) (self : SimEngineLightVEX V) :
  process (_process ops) st (Some b) self =
  match _process_Stmt_from ops 0 (statements (vex b))
          (self_after (bind_context st b self)) with
  | (Ok _, s, w) => (Ok tt, on_base (set_ins_addr None) (on_base (set_stmt_idx None) s), w)
  | (Raise x, s, w) => (Raise x, s, w)
  end.
Proof.
  unfold process, _process. unfold bind at 1. rewrite !bind_context_run.
  unfold self_after. cbn [fst snd].
  set (s0 := {| base := _; tyenv := _ |}).
  unfold _process_Stmt, clear_context, bind, gets, modify. cbn [block base s0].
  destruct (_process_Stmt_from ops 0 (statements (vex b)) s0) as [[[[]|x] s1] w1];
    simpl; rewrite ?app_nil_r; reflexivity.
Qed.

(** One turn of the loop whose handler returns. *)
Lemma process_Stmt_from_cons_Ok (stmt : IRStmt V) rest idx self s2 w2 r s3 w3 :
  _handle_Stmt ops stmt
    (on_base (set_ins_addr (last_mark [stmt] (ins_addr (base self))))
       (on_base (set_stmt_idx (Some idx)) self)) = (Ok tt, s2, w2) ->
  _process_Stmt_from ops (S idx) rest s2 = (r, s3, w3) ->
  _process_Stmt_from ops idx (stmt :: rest) self = (r, s3, w2 ++ w3).
Proof.
  intros Hh Hrest. simpl.
  rewrite (bind_Ok _ _ _ _ _ _ (loop_head_run idx stmt self)).
  rewrite (bind_Ok _ _ _ _ _ _ Hh), Hrest. reflexivity.
Qed.

(** A block of statements without handlers: one record each, nothing else. *)
Lemma process_Stmt_from_unsupported (stmts : list (IRStmt V)) idx self :
  Forall (fun s => getattr ("_handle_" +:+ stmt_type_name s) = None) stmts ->
  exists self',
    _process_Stmt_from ops idx stmts self = (Ok tt, self', unsupported_stmt <$> stmts) /\
    tmps (base self') = tmps (base self).
Proof.
  intros Hall. revert idx self.
  induction Hall as [|stmt rest Hs _ IH]; intros idx self.
  { exists self. split; reflexivity. }
  destruct (IH (S idx)
              (on_base (set_ins_addr (last_mark [stmt] (ins_addr (base self))))
                 (on_base (set_stmt_idx (Some idx)) self))) as (self' & Hrun & Ht).
  exists self'. split.
  - simpl. rewrite (bind_Ok _ _ _ _ _ _ (loop_head_run idx stmt self)).
    assert (Hh : forall s, _handle_Stmt ops stmt s = (Ok tt, s, [unsupported_stmt stmt])).
    { intros s. unfold _handle_Stmt. rewrite Hs. reflexivity. }
    rewrite (bind_Ok _ _ _ _ _ _ (Hh _)). rewrite Hrun. reflexivity.
  - rewrite Ht. destruct self as [[] ?]. reflexivity.
Qed.

(** A statement handler leaves the temp table as it is or assigns one temp. *)
Lemma handle_Stmt_table (stmt : IRStmt V) self table :
  tmps (base self) = Some table ->
  exists table',
    self_after (_handle_Stmt ops stmt self) = on_base (set_tmps (Some table')) self /\
    (table' = table \/ exists tmp d, table' = <[tmp := d]> table).
Proof.
  intros Ht.
  assert (Hid : self = on_base (set_tmps (Some table)) self)
    by (destruct self as [[] ?]; simpl in Ht; subst; reflexivity).
  assert (Hobs : forall m : M (SimEngineLightVEX V) unit, observer m ->
            exists table',
              self_after (m self) = on_base (set_tmps (Some table')) self /\
              (table' = table \/ exists tmp d, table' = <[tmp := d]> table)).
  { intros m Hm. exists table. rewrite Hm. split; [exact Hid|auto]. }
  unfold _handle_Stmt. destruct (getattr _) as [m|]; [|apply Hobs; auto with observers].
  destruct m; simpl;
    try solve [apply Hobs; unfold _handle_Put, _handle_Store; auto with observers].
  destruct stmt as [? ? ?|tmp data|? ?|? ? ?|?];
    try solve [apply Hobs; simpl; auto with observers].
  unfold _handle_WrTmp, bind.
  pose proof (observer_expr ops data self) as Hd. unfold self_after in Hd.
  destruct (_expr ops data self) as [[[[d|]|x] s1] w1]; simpl in Hd; subst s1; simpl.
  - rewrite Ht. simpl. exists (<[tmp := d]> table). split; [reflexivity|eauto].
  - exists table. split; [exact Hid|auto].
  - exists table. split; [exact Hid|auto].
Qed.

(** The loop never removes a temp, however it ends. *)
Lemma process_Stmt_from_dom (stmts : list (IRStmt V)) idx self table :
  tmps (base self) = Some table ->
  exists table',
    tmps (base (self_after (_process_Stmt_from ops idx stmts self))) = Some table' /\
    dom table ⊆ dom table'.
Proof.
  revert idx self table. induction stmts as [|stmt rest IH]; intros idx self table Ht.
  { exists table. split; [exact Ht|reflexivity]. }
  simpl. rewrite (bind_Ok _ _ _ _ _ _ (loop_head_run idx stmt self)).
  set (s1 := on_base _ (on_base _ self)).
  assert (Ht1 : tmps (base s1) = Some table) by (destruct self as [[] ?]; exact Ht).
  destruct (handle_Stmt_table stmt s1 table Ht1) as (t2 & Hs2 & Hdom).
  assert (Hsub : dom table ⊆ dom t2).
  { destruct Hdom as [->|(tmp & d & ->)]; [reflexivity|]. apply dom_insert_subseteq. }
  unfold self_after at 1. cbn [fst snd].
  unfold bind at 1. unfold self_after in Hs2.
  destruct (_handle_Stmt ops stmt s1) as [[[[]|x] s2] w2]; simpl in Hs2; subst s2.
  - destruct (IH (S idx) (on_base (set_tmps (Some t2)) s1) t2) as (t3 & Ht3 & Hsub3).
    { destruct s1 as [[] ?]. reflexivity. }
    unfold self_after in Ht3.
    destruct (_process_Stmt_from ops (S idx) rest (on_base (set_tmps (Some t2)) s1))
      as [[r s3] w3].
    exists t3. split; [exact Ht3|]. etransitivity; eassumption.
  - exists t2. split; [destruct s1 as [[] ?]; reflexivity|exact Hsub].
Qed.

End MoreVEXFacts.

(** ** Dialect B *)

Section MoreAILFacts.
Import AIL.
Context {V : Type} `{!Arith V}.

(** Induction on expressions that reaches the operands of an operator. *)
Lemma Expr_rect_operands (P : Expr V -> Prop)
  (HPrim : forall v, P (Prim v))
  (HConst : forall idx value bits tags, P (Const idx value bits tags))
  (HTmp : forall idx tmp_idx bits tags, P (Tmp idx tmp_idx bits tags))
  (HLoad : forall idx a size endness tags, P a -> P (Load idx a size endness tags))
  (HUnaryOp : forall idx op operand tags, P operand -> P (UnaryOp idx op operand tags))
  (HBinaryOp : forall idx op operands tags,
      Forall P operands -> P (BinaryOp idx op operands tags))
  (HOther : forall cls idx tags, P (OtherExpr cls idx tags)) :
  forall e, P e.
Proof.
  fix IH 1. intros [v|idx value bits tags|idx tmp_idx bits tags|idx a size endness tags
                   |idx op operand tags|idx op operands tags|cls idx tags].
  - apply HPrim.
  - apply HConst.
  - apply HTmp.
  - apply HLoad, IH.
  - apply HUnaryOp, IH.
  - apply HBinaryOp.
    induction operands as [|a operands IHo]; constructor; [apply IH|exact IHo].
  - apply HOther.
Qed.

Lemma observer_ail_handle_Const (e : Expr V) : observer (_ail_handle_Const e).
Proof. destruct e; simpl; auto with observers. Qed.

Lemma observer_ail_handle_Tmp (e : Expr V) : observer (_ail_handle_Tmp e).
Proof.
  destruct e; simpl; auto with observers.
  apply observer_bind; auto with observers.
  intros [table|]; auto with observers.
  destruct (table !! tmp_idx); auto with observers.
Qed.

Lemma observer_ail_handle_Add rec (e : Expr V) :
  match e with
  | BinaryOp _ _ operands _ => Forall (fun a => observer (rec a)) operands
  | _ => True
  end ->
  observer (_ail_handle_Add rec e).
Proof.
  destruct e as [| | | | |idx op operands tags|]; simpl; auto with observers.
  intros Hops. destruct operands as [|a0 [|a1 [|a2 operands]]]; auto with observers.
  pose proof (Forall_inv Hops) as H0.
  pose proof (Forall_inv (Forall_inv_tail Hops)) as H1.
  apply observer_bind; [exact H0|]. intros r0.
  apply observer_bind; [exact H1|]. intros r1.
  destruct (expr_add _ _); auto with observers.
Qed.

Lemma observer_ail_handle_Sub rec (e : Expr V) :
  match e with
  | BinaryOp _ _ operands _ => Forall (fun a => observer (rec a)) operands
  | _ => True
  end ->
  observer (_ail_handle_Sub rec e).
Proof.
  destruct e as [| | | | |idx op operands tags|]; simpl; auto with observers.
  intros Hops. destruct operands as [|a0 [|a1 [|a2 operands]]]; auto with observers.
  pose proof (Forall_inv Hops) as H0.
  pose proof (Forall_inv (Forall_inv_tail Hops)) as H1.
  apply observer_bind; [exact H0|]. intros r0.
  apply observer_bind; [exact H1|]. intros r1.
  destruct (expr_sub _ _); auto with observers.
Qed.

Lemma observer_ail_call rec m (e : Expr V) :
  match e with
  | BinaryOp _ _ operands _ => Forall (fun a => observer (rec a)) operands
  | _ => True
  end ->
  observer (call rec m e).
Proof.
  intros He. destruct m; simpl; unfold _ail_handle_Load; auto with observers.
  - apply observer_ail_handle_Const.
  - apply observer_ail_handle_Tmp.
  - apply observer_ail_handle_Add, He.
  - apply observer_ail_handle_Sub, He.
Qed.

Lemma observer_ail_handle_UnaryOp rec (e : Expr V) :
  match e with
  | BinaryOp _ _ operands _ => Forall (fun a => observer (rec a)) operands
  | _ => True
  end ->
  observer (_ail_handle_UnaryOp rec e).
Proof.
  intros He. destruct e; simpl; auto with observers;
    (destruct (getattr _) as [m|];
      [apply observer_ail_call; exact He|apply observer_bind; auto with observers]).
Qed.

Lemma observer_ail_handle_BinaryOp rec (e : Expr V) :
  match e with
  | BinaryOp _ _ operands _ => Forall (fun a => observer (rec a)) operands
  | _ => True
  end ->
  observer (_ail_handle_BinaryOp rec e).
Proof.
  intros He. destruct e; simpl; auto with observers;
    (destruct (getattr _) as [m|];
      [apply observer_ail_call; exact He|apply observer_bind; auto with observers]).
Qed.

Lemma observer_ail_dispatch (e : Expr V) :
  match e with
  | BinaryOp _ _ operands _ => Forall (fun a => observer (_expr a)) operands
  | _ => True
  end ->
  observer (_expr e).
Proof.
  intros He. rewrite ail_expr_eq. destruct (getattr _) as [m|].
  - destruct m; try (apply observer_ail_call; exact He).
    + apply observer_ail_handle_UnaryOp, He.
    + apply observer_ail_handle_BinaryOp, He.
  - apply observer_bind; auto with observers.
Qed.

(** Evaluating an expression never changes the instance. *)
Lemma observer_ail_expr (e : Expr V) : observer (_expr e).
Proof.
  induction e using Expr_rect_operands; apply observer_ail_dispatch; auto.
Qed.

(** [process], unfolded as for dialect A; without a block the context is
    bound before [self.block.statements] fails. *)
Lemma ail_process_unfold st (blk : option (Block V)) (self : SimEngineLight (Block V) (Expr V)) :
  process _process st blk self =
  match blk with
  | Some b =>
      match _process_Stmt_from 0 (statements b) (self_after (bind_context st blk self)) with
      | (Ok _, s, w) => (Ok tt, set_ins_addr None (set_stmt_idx None s), w)
      | (Raise x, s, w) => (Raise x, s, w)
      end
  | None => (Raise AttributeError, self_after (bind_context st blk self), [])
  end.
Proof.
  unfold process, _process. unfold bind at 1. rewrite !ail_bind_context_run.
  unfold self_after. cbn [fst snd].
  set (s0 := {| engine_type := _ |}).
  unfold _process_Stmt, clear_context, bind, gets, modify. cbn [block s0].
  destruct blk as [b|]; [|reflexivity].
  destruct (_process_Stmt_from 0 (statements b) s0) as [[[[]|x] s1] w1];
    simpl; rewrite ?app_nil_r; reflexivity.
Qed.

(** The loop never touches the temp table, however it ends. *)
Lemma ail_process_Stmt_from_tmps (stmts : list (Statement V)) idx self :
  tmps (self_after (_process_Stmt_from idx stmts self)) = tmps self.
Proof.
  revert idx self. induction stmts as [|stmt rest IH]; intros idx self; [reflexivity|].
  simpl. rewrite (bind_Ok _ _ _ _ _ _ (ail_loop_head_run idx stmt self)).
  set (s1 := set_ins_addr _ (set_stmt_idx _ self)).
  unfold self_after at 1. cbn [fst snd]. unfold bind at 1.
  pose proof (observer_ail_handle_Stmt stmt s1) as Hobs. unfold self_after in Hobs.
  destruct (_ail_handle_Stmt stmt s1) as [[[[]|x] s2] w2]; simpl in Hobs; subst s2.
  - specialize (IH (S idx) s1). unfold self_after in IH.
    destruct (_process_Stmt_from (S idx) rest s1) as [[r s3] w3]. exact IH.
  - reflexivity.
Qed.

Lemma ail_process_Stmt_from_unsupported (stmts : list (Statement V)) idx self :
  Forall (fun s => getattr ("_ail_handle_" +:+ stmt_type_name s) = None) stmts ->
  exists self',
    _process_Stmt_from idx stmts self = (Ok tt, self', unsupported_stmt <$> stmts).
Proof.
  intros Hall. revert idx self.
  induction Hall as [|stmt rest Hs _ IH]; intros idx self.
  { exists self. reflexivity. }
  destruct (IH (S idx) (set_ins_addr (Some (stmt_ins_addr stmt))
                          (set_stmt_idx (Some idx) self))) as (self' & Hrun).
  exists self'. simpl.
  rewrite (bind_Ok _ _ _ _ _ _ (ail_loop_head_run idx stmt self)).
  assert (Hh : forall s, _ail_handle_Stmt stmt s = (Ok tt, s, [unsupported_stmt stmt])).
  { intros s. unfold _ail_handle_Stmt. rewrite Hs. reflexivity. }
  rewrite (bind_Ok _ _ _ _ _ _ (Hh _)). rewrite Hrun. reflexivity.
Qed.

End MoreAILFacts.

(** ** Methods that read one attribute *)

Section ReadersFacts.
Context {S T : Type} (f : S -> T).

Lemma reads_only_ret {A} (a : A) : reads_only f (@ret S A a).
Proof. intros s1 s2 _. split; reflexivity. Qed.

Lemma reads_only_raise {A} (x : exn) : reads_only f (@raise S A x).
Proof. intros s1 s2 _. split; reflexivity. Qed.

Lemma reads_only_warning fmt arg : reads_only f (@warning S fmt arg).
Proof. intros s1 s2 _. split; reflexivity. Qed.

Lemma reads_only_gets : reads_only f (gets f).
Proof. intros s1 s2 Hf. unfold gets, outcome, logged. simpl. rewrite Hf. auto. Qed.

Lemma reads_only_bind {A B} (m : M S A) (k : A -> M S B) :
  observer m -> reads_only f m -> (forall a, reads_only f (k a)) ->
  reads_only f (bind m k).
Proof.
  intros Hobs Hm Hk s1 s2 Hf.
  destruct (Hm s1 s2 Hf) as [Ho Hl].
  pose proof (Hobs s1) as H1. pose proof (Hobs s2) as H2.
  unfold bind, outcome, self_after, logged in *.
  destruct (m s1) as [[r1 s1'] w1], (m s2) as [[r2 s2'] w2]. simpl in *. subst.
  destruct r2 as [a|x]; [|auto].
  destruct (Hk a s1 s2 Hf) as [Ho' Hl']. unfold outcome, logged in *.
  destruct (k a s1) as [[r1 s1'] w1], (k a s2) as [[r2' s2'] w2']. simpl in *.
  subst. auto.
Qed.

End ReadersFacts.

Create HintDb readers.
#[local] Hint Resolve reads_only_ret reads_only_raise reads_only_warning : readers.

Section VEXReaders.
Import VEX.
Context {V : Type} `{!Arith V}.
Variable ops : gmap string SimIROp.

Lemma reads_handle_RdTmp (e : IRExpr V) :
  reads_only (fun self => tmps (base self)) (_handle_RdTmp e).
Proof.
  destruct e; simpl; auto with readers.
  apply reads_only_bind; [auto with observers|apply reads_only_gets|].
  intros [table|]; auto with readers.
Qed.

Lemma reads_handle_Const (e : IRExpr V) :
  reads_only (fun self => tmps (base self)) (_handle_Const e).
Proof. destruct e; simpl; auto with readers. Qed.

Lemma reads_handle_Add rec (a0 a1 : IRExpr V) :
  observer (rec a0) -> reads_only (fun self => tmps (base self)) (rec a0) ->
  observer (rec a1) -> reads_only (fun self => tmps (base self)) (rec a1) ->
  reads_only (fun self => tmps (base self)) (_handle_Add rec a0 a1).
Proof.
  intros O0 R0 O1 R1. unfold _handle_Add. apply reads_only_bind; auto.
  intros [v0|]; auto with readers. apply reads_only_bind; auto.
  intros [v1|]; auto with readers. destruct (py_add v0 v1); auto with readers.
Qed.

Lemma reads_handle_Sub rec (a0 a1 : IRExpr V) :
  observer (rec a0) -> reads_only (fun self => tmps (base self)) (rec a0) ->
  observer (rec a1) -> reads_only (fun self => tmps (base self)) (rec a1) ->
  reads_only (fun self => tmps (base self)) (_handle_Sub rec a0 a1).
Proof.
  intros O0 R0 O1 R1. unfold _handle_Sub. apply reads_only_bind; auto.
  intros [v0|]; auto with readers. apply reads_only_bind; auto.
  intros [v1|]; auto with readers. destruct (py_sub v0 v1); auto with readers.
Qed.

Lemma reads_handle_Binop rec (e : IRExpr V) :
  match e with
  | Binop _ args | Unop _ args =>
      Forall (fun a => observer (rec a) /\
                       reads_only (fun self => tmps (base self)) (rec a)) args
  | _ => True
  end ->
  reads_only (fun self => tmps (base self)) (_handle_Binop rec e).
Proof.
  assert (Hbody : forall op args,
    Forall (fun a => observer (rec a) /\
                     reads_only (fun self => tmps (base self)) (rec a)) args ->
    reads_only (fun self => tmps (base self))
      (if String.prefix "Iop_Add" op then star2 (_handle_Add rec) args
       else if String.prefix "Iop_Sub" op then star2 (_handle_Sub rec) args
       else if String.prefix "Const" op then star1 _handle_Const args
       else ret None)).
  { intros op args Hargs.
    assert (H2 : forall a0 a1, args = [a0; a1] ->
              (observer (rec a0) /\ reads_only (fun self => tmps (base self)) (rec a0)) /\
              (observer (rec a1) /\ reads_only (fun self => tmps (base self)) (rec a1))).
    { intros a0 a1 ->. split; [apply (Forall_inv Hargs)|].
      apply (Forall_inv (Forall_inv_tail Hargs)). }
    destruct (String.prefix "Iop_Add" op).
    { destruct args as [|a0 [|a1 [|a2 args]]]; simpl; auto with readers.
      destruct (H2 a0 a1 eq_refl) as [[] []]. apply reads_handle_Add; assumption. }
    destruct (String.prefix "Iop_Sub" op).
    { destruct args as [|a0 [|a1 [|a2 args]]]; simpl; auto with readers.
      destruct (H2 a0 a1 eq_refl) as [[] []]. apply reads_handle_Sub; assumption. }
    destruct (String.prefix "Const" op); auto with readers.
    destruct args as [|a0 [|a1 args]]; simpl; auto with readers.
    apply reads_handle_Const. }
  destruct e; simpl; auto with readers.
Qed.

Lemma reads_call rec m (e : IRExpr V) :
  match e with
  | Binop _ args | Unop _ args =>
      Forall (fun a => observer (rec a) /\
                       reads_only (fun self => tmps (base self)) (rec a)) args
  | _ => True
  end ->
  reads_only (fun self => tmps (base self)) (call rec m e).
Proof.
  intros He. destruct m; simpl; unfold _handle_Get, _handle_Load; auto with readers.
  - apply reads_handle_RdTmp.
  - apply reads_handle_Binop, He.
  - apply reads_handle_Const.
Qed.

Lemma reads_handle_UnaryOp rec (e : IRExpr V) :
  match e with
  | Binop _ args | Unop _ args =>
      Forall (fun a => observer (rec a) /\
                       reads_only (fun self => tmps (base self)) (rec a)) args
  | _ => True
  end ->
  reads_only (fun self => tmps (base self)) (_handle_UnaryOp ops rec e).
Proof.
  intros He. destruct e as [| | |op args|op args| |]; simpl; auto with readers;
    (destruct (ops !! op) as [simop|]; auto with readers;
     destruct (getattr _) as [m|];
       [apply reads_call; exact He
       |apply reads_only_bind; auto with readers observers]).
Qed.

Lemma reads_dispatch (e : IRExpr V) :
  match e with
  | Binop _ args | Unop _ args =>
      Forall (fun a => observer (_expr ops a) /\
                       reads_only (fun self => tmps (base self)) (_expr ops a)) args
  | _ => True
  end ->
  reads_only (fun self => tmps (base self)) (_expr ops e).
Proof.
  intros He. rewrite _expr_eq. destruct (getattr _) as [m|].
  - destruct m; try (apply reads_call; exact He).
    apply reads_handle_UnaryOp, He.
  - apply reads_only_bind; auto with readers observers.
Qed.

(** Evaluating an expression reads nothing of the instance but [tmps]. *)
Lemma reads_expr (e : IRExpr V) :
  reads_only (fun self => tmps (base self)) (_expr ops e).
Proof.
  induction e using IRExpr_rect_args; apply reads_dispatch; auto;
    (eapply Forall_impl; [eassumption|]; intros a Ha; split;
      [apply observer_expr|exact Ha]).
Qed.

End VEXReaders.

Section AILReaders.
Import AIL.
Context {V : Type} `{!Arith V}.

Lemma reads_ail_handle_Const (e : Expr V) : reads_only tmps (_ail_handle_Const e).
Proof. destruct e; simpl; auto with readers. Qed.

Lemma reads_ail_handle_Tmp (e : Expr V) : reads_only tmps (_ail_handle_Tmp e).
Proof.
  destruct e; simpl; auto with readers.
  apply reads_only_bind; [auto with observers|apply reads_only_gets|].
  intros [table|]; auto with readers.
  destruct (table !! tmp_idx); auto with readers.
Qed.

Lemma reads_ail_handle_Add rec (e : Expr V) :
  match e with
  | BinaryOp _ _ operands _ =>
      Forall (fun a => observer (rec a) /\ reads_only tmps (rec a)) operands
  | _ => True
  end ->
  reads_only tmps (_ail_handle_Add rec e).
Proof.
  destruct e as [| | | | |idx op operands tags|]; simpl; auto with readers.
  intros Hops. destruct operands as [|a0 [|a1 [|a2 operands]]]; auto with readers.
  destruct (Forall_inv Hops) as [O0 R0].
  destruct (Forall_inv (Forall_inv_tail Hops)) as [O1 R1].
  apply reads_only_bind; auto. intros r0.
  apply reads_only_bind; auto. intros r1.
  destruct (expr_add _ _); auto with readers.
Qed.

Lemma reads_ail_handle_Sub rec (e : Expr V) :
  match e with
  | BinaryOp _ _ operands _ =>
      Forall (fun a => observer (rec a) /\ reads_only tmps (rec a)) operands
  | _ => True
  end ->
  reads_only tmps (_ail_handle_Sub rec e).
Proof.
  destruct e as [| | | | |idx op operands tags|]; simpl; auto with readers.
  intros Hops. destruct operands as [|a0 [|a1 [|a2 operands]]]; auto with readers.
  destruct (Forall_inv Hops) as [O0 R0].
  destruct (Forall_inv (Forall_inv_tail Hops)) as [O1 R1].
  apply reads_only_bind; auto. intros r0.
  apply reads_only_bind; auto. intros r1.
  destruct (expr_sub _ _); auto with readers.
Qed.

Lemma reads_ail_call rec m (e : Expr V) :
  match e with
  | BinaryOp _ _ operands _ =>
      Forall (fun a => observer (rec a) /\ reads_only tmps (rec a)) operands
  | _ => True
  end ->
  reads_only tmps (call rec m e).
Proof.
  intros He. destruct m; simpl; unfold _ail_handle_Load; auto with readers.
  - apply reads_ail_handle_Const.
  - apply reads_ail_handle_Tmp.
  - apply reads_ail_handle_Add, He.
  - apply reads_ail_handle_Sub, He.
Qed.

Lemma reads_ail_dispatch (e : Expr V) :
  match e with
  | BinaryOp _ _ operands _ =>
      Forall (fun a => observer (_expr a) /\ reads_only tmps (_expr a)) operands
  | _ => True
  end ->
  reads_only tmps (_expr e).
Proof.
  intros He. rewrite ail_expr_eq. destruct (getattr _) as [m|].
  - destruct m; try (apply reads_ail_call; exact He).
    + destruct e; simpl; auto with readers;
        (destruct (getattr _) as [m|];
          [apply reads_ail_call; exact He
          |apply reads_only_bind; auto with readers observers]).
    + destruct e; simpl; auto with readers;
        (destruct (getattr _) as [m|];
          [apply reads_ail_call; exact He
          |apply reads_only_bind; auto with readers observers]).
  - apply reads_only_bind; auto with readers observers.
Qed.

Lemma reads_ail_expr (e : Expr V) : reads_only tmps (_expr e).
Proof.
  induction e using Expr_rect_operands; apply reads_ail_dispatch; auto;
    (eapply Forall_impl; [eassumption|]; intros a Ha; split;
      [apply observer_ail_expr|exact Ha]).
Qed.

End AILReaders.

(** ** Further statements about both dialects *)

Section Further.
Context {V : Type} `{!Arith V}.
Variable ops : gmap string VEX.SimIROp.

(** X1. Temp round trip in dialect A: when the data of a [WrTmp] has a
    value and the temp table is in place, the statement stores the value
    under the temp id and changes nothing else; a read of that temp then
    gives exactly the value, and a read of any other temp gives what the
    table held before. *)
Theorem WrTmp_RdTmp_round_trip (self s : VEX.SimEngineLightVEX V)
    (table : gmap Z V) tmp data v w :
  tmps (VEX.base self) = Some table ->
  VEX._expr ops data self = (Ok (Some v), s, w) ->
  let self' := VEX.on_base (set_tmps (Some (<[tmp := v]> table))) self in
  VEX._handle_Stmt ops (VEX.WrTmp tmp data) self = (Ok tt, self', w) /\
  VEX._expr ops (VEX.RdTmp tmp) self' = (Ok (Some v), self', []) /\
  forall tmp', tmp' <> tmp ->
    VEX._expr ops (VEX.RdTmp tmp') self' = (Ok (table !! tmp'), self', []).
Proof.
  intros Ht Hd self'.
  assert (s = self) as ->.
  { pose proof (observer_expr ops data self) as Ho. rewrite Hd in Ho. exact Ho. }
  assert (Ht' : tmps (VEX.base self') = Some (<[tmp := v]> table))
    by (destruct self as [[] ?]; reflexivity).
  split; [|split].
  - apply handle_WrTmp_Some; assumption.
  - rewrite (RdTmp_run ops self' _ tmp Ht'), lookup_insert_eq. reflexivity.
  - intros tmp' Hne. rewrite (RdTmp_run ops self' _ tmp' Ht').
    rewrite lookup_insert_ne by congruence. reflexivity.
Qed.

(** X2. In either dialect, evaluating an expression leaves every attribute
    of the instance as it was, whether the evaluation returns or raises. *)
Theorem expr_leaves_instance :
  (forall (e : VEX.IRExpr V) self, self_after (VEX._expr ops e self) = self) /\
  (forall (e : AIL.Expr V) self, self_after (AIL._expr e self) = self).
Proof.
  split.
  - intros e self. apply (observer_expr ops e).
  - intros e self. apply (observer_ail_expr e).
Qed.

(** X3. In either dialect, the result of evaluating an expression and the
    records it logs depend on the instance through its temp table only:
    block, state, architecture, statement index and instruction address
    are not read. *)
Theorem expr_reads_only_tmps :
  (forall (e : VEX.IRExpr V) s1 s2,
     tmps (VEX.base s1) = tmps (VEX.base s2) ->
     outcome (VEX._expr ops e s1) = outcome (VEX._expr ops e s2) /\
     logged (VEX._expr ops e s1) = logged (VEX._expr ops e s2)) /\
  (forall (e : AIL.Expr V) s1 s2,
     tmps s1 = tmps s2 ->
     outcome (AIL._expr e s1) = outcome (AIL._expr e s2) /\
     logged (AIL._expr e s1) = logged (AIL._expr e s2)).
Proof.
  split.
  - intros e s1 s2 Ht. apply (reads_expr ops e s1 s2 Ht).
  - intros e s1 s2 Ht. apply (reads_ail_expr e s1 s2 Ht).
Qed.

(** X4. In dialect A, an expression built from constants, temp reads and
    two-operand additions and subtractions is evaluated, with the temp
    table in place, without a raise and without a log record, to the value
    plain arithmetic gives it; it is unknown exactly when that arithmetic
    meets an undefined temp or a [TypeError], however deep in the tree. *)
Theorem arith_expr_total (e : VEX.IRExpr V) (self : VEX.SimEngineLightVEX V)
    (table : gmap Z V) :
  VEX.arith e = true ->
  tmps (VEX.base self) = Some table ->
  VEX._expr ops e self = (Ok (VEX.arith_value table e), self, []).
Proof. intros He Ht. apply arith_expr_run; assumption. Qed.

(** X5. In dialect A a pyvex [Unop] node never reaches [_handle_UnaryOp]:
    [_expr] looks for a method [_handle_Unop], finds none, and returns
    unknown with the warning for an unsupported expression type, whatever
    the opcode and whatever the operator table holds (the table is not
    consulted, so no [KeyError] arises, and no argument is evaluated).
    As the first operand of an addition or a subtraction it makes the
    whole node unknown. *)
Theorem Unop_is_unsupported (self : VEX.SimEngineLightVEX V)
    (op : string) (args : list (VEX.IRExpr V)) :
  VEX._expr ops (VEX.Unop op args) self =
    (Ok None, self, [Warning "Unsupported expression type %s." "Unop"]) /\
  (forall width a1,
     VEX._expr ops (VEX.Binop ("Iop_Add" +:+ width) [VEX.Unop op args; a1]) self =
       (Ok None, self, [Warning "Unsupported expression type %s." "Unop"]) /\
     VEX._expr ops (VEX.Binop ("Iop_Sub" +:+ width) [VEX.Unop op args; a1]) self =
       (Ok None, self, [Warning "Unsupported expression type %s." "Unop"])).
Proof.
  assert (Hun : VEX._expr ops (VEX.Unop op args) self =
                (Ok None, self, [Warning "Unsupported expression type %s." "Unop"]))
    by (rewrite _expr_eq; reflexivity).
  split; [exact Hun|]. intros width a1.
  rewrite expr_Binop_Add, expr_Binop_Sub. unfold VEX._handle_Add, VEX._handle_Sub.
  rewrite !(bind_Ok _ _ _ _ _ _ Hun). split; reflexivity.
Qed.

(** X6. In dialect A the handlers of a [Binop] are called with the node's
    arguments spread out: a node of the [Const] family with two arguments
    raises [TypeError] (the handler takes one), and a node of the [Iop_Add]
    or [Iop_Sub] family whose number of arguments is not two raises
    [TypeError] as well; no argument is evaluated and nothing is logged. *)
Theorem Binop_call_arity (self : VEX.SimEngineLightVEX V) (width : string) :
  (forall a0 a1,
     VEX._expr ops (VEX.Binop ("Const" +:+ width) [a0; a1]) self =
       (Raise TypeError, self, [])) /\
  (forall args, length args <> 2%nat ->
     VEX._expr ops (VEX.Binop ("Iop_Add" +:+ width) args) self =
       (Raise TypeError, self, []) /\
     VEX._expr ops (VEX.Binop ("Iop_Sub" +:+ width) args) self =
       (Raise TypeError, self, [])).
Proof.
  split.
  - intros a0 a1. rewrite expr_Binop. cbn [VEX._handle_Binop].
    rewrite (prefix_append "Const" width). reflexivity.
  - intros args Hlen. rewrite !expr_Binop. cbn [VEX._handle_Binop].
    rewrite (prefix_append "Iop_Add" width), (prefix_append "Iop_Sub" width).
    destruct args as [|a0 [|a1 [|a2 args]]]; try (split; reflexivity).
    simpl in Hlen. congruence.
Qed.

(** X7. Dialect B finds the handler of an operator by its exact name: a
    [BinaryOp] or [UnaryOp] whose operator names no method
    [_ail_handle_<op>] evaluates to unknown with one warning logged and
    without evaluating an operand; in particular [Add] or [Sub] followed by
    anything (a width, say) is not the addition or the subtraction. *)
Theorem operator_dispatch_exact (self : SimEngineLight (AIL.Block V) (AIL.Expr V)) :
  (forall idx op operands tags,
     AIL.getattr ("_ail_handle_" +:+ op) = None ->
     AIL._expr (AIL.BinaryOp idx op operands tags) self =
       (Ok None, self, [Warning "Unsupported BinaryOp %s." op])) /\
  (forall idx op operand tags,
     AIL.getattr ("_ail_handle_" +:+ op) = None ->
     AIL._expr (AIL.UnaryOp idx op operand tags) self =
       (Ok None, self, [Warning "Unsupported UnaryOp %s." op])) /\
  (forall idx c suffix operands tags,
     AIL._expr (AIL.BinaryOp idx ("Add" +:+ String c suffix) operands tags) self =
       (Ok None, self, [Warning "Unsupported BinaryOp %s." ("Add" +:+ String c suffix)]) /\
     AIL._expr (AIL.BinaryOp idx ("Sub" +:+ String c suffix) operands tags) self =
       (Ok None, self, [Warning "Unsupported BinaryOp %s." ("Sub" +:+ String c suffix)])).
Proof.
  split; [|split].
  - intros idx op operands tags Hop. rewrite ail_expr_eq.
    cbn [AIL.expr_type_name].
    change (AIL.getattr ("_ail_handle_" +:+ "BinaryOp")) with (Some AIL.hBinaryOp).
    cbn [AIL._ail_handle_BinaryOp]. rewrite Hop. reflexivity.
  - intros idx op operand tags Hop. rewrite ail_expr_eq.
    cbn [AIL.expr_type_name].
    change (AIL.getattr ("_ail_handle_" +:+ "UnaryOp")) with (Some AIL.hUnaryOp).
    cbn [AIL._ail_handle_UnaryOp]. rewrite Hop. reflexivity.
  - intros idx c suffix operands tags. split; rewrite ail_expr_eq; reflexivity.
Qed.

(** X8. The base engine of dialect B never writes the temp table: whatever
    the block, and whether the call returns or raises, [process] leaves
    the empty table it created at its start. *)
Theorem ail_process_leaves_no_temps
    (self : SimEngineLight (AIL.Block V) (AIL.Expr V)) st blk :
  tmps (self_after (process AIL._process st blk self)) = Some ∅.
Proof.
  rewrite ail_process_unfold. destruct blk as [b|]; [|reflexivity].
  pose proof (ail_process_Stmt_from_tmps (AIL.statements b) 0
                (self_after (AIL.bind_context st (Some b) self))) as Ht.
  unfold self_after in *.
  destruct (AIL._process_Stmt_from 0 (AIL.statements b)
              (AIL.bind_context st (Some b) self).1.2) as [[[[]|x] s1] w1];
    simpl in *; exact Ht.
Qed.

(** X9. In either dialect, a block all of whose statements are of classes
    without a handler is processed to the end: [process] returns, logs one
    warning per statement in the order of the block, and leaves the temp
    table empty. *)
Theorem unsupported_only_block :
  (forall (self : VEX.SimEngineLightVEX V) st b,
     Forall (fun s => VEX.getattr ("_handle_" +:+ VEX.stmt_type_name s) = None)
       (VEX.statements (VEX.vex b)) ->
     let run := process (VEX._process ops) st (Some b) self in
     outcome run = Ok tt /\
     logged run = VEX.unsupported_stmt <$> VEX.statements (VEX.vex b) /\
     tmps (VEX.base (self_after run)) = Some ∅) /\
  (forall (self : SimEngineLight (AIL.Block V) (AIL.Expr V)) st b,
     Forall (fun s => AIL.getattr ("_ail_handle_" +:+ AIL.stmt_type_name s) = None)
       (AIL.statements b) ->
     let run := process AIL._process st (Some b) self in
     outcome run = Ok tt /\
     logged run = AIL.unsupported_stmt <$> AIL.statements b /\
     tmps (self_after run) = Some ∅).
Proof.
  split.
  - intros self st b Hall. cbv zeta. rewrite vex_process_unfold.
    destruct (process_Stmt_from_unsupported ops _ 0
                (self_after (VEX.bind_context st b self)) Hall) as (s' & -> & Ht).
    unfold outcome, logged, self_after in *. simpl in *.
    repeat split. destruct s' as [[] ?]. simpl in *. exact Ht.
  - intros self st b Hall. cbv zeta. rewrite ail_process_unfold.
    destruct (ail_process_Stmt_from_unsupported _ 0
                (self_after (AIL.bind_context st (Some b) self)) Hall) as (s' & Hrun).
    pose proof (ail_process_Stmt_from_tmps (AIL.statements b) 0
                  (self_after (AIL.bind_context st (Some b) self))) as Ht.
    rewrite Hrun in *. unfold outcome, logged, self_after in *. simpl in *.
    repeat split. destruct s'. simpl in *. exact Ht.
Qed.

(** X10. In dialect A, a [Put] or a [Store] that the loop reaches ends the
    call: [process] raises the handler's [NotImplementedError], the
    statements after it are not run (nothing more is logged), and the
    context is not reset: the statement index stays at the failing
    statement and the instruction address at the last marker before it. *)
Theorem Put_Store_abort_block (self : VEX.SimEngineLightVEX V) st b pre s post :
  VEX.statements (VEX.vex b) = pre ++ s :: post ->
  (exists data offset, s = VEX.Put data offset) \/
  (exists a data end_, s = VEX.Store a data end_) ->
  VEX.reaches ops (self_after (VEX.bind_context st b self))
    (VEX.statements (VEX.vex b)) (length pre) ->
  let run := process (VEX._process ops) st (Some b) self in
  outcome run = Raise (VEX.not_implemented (VEX.stmt_type_name s)) /\
  stmt_idx (VEX.base (self_after run)) = Some (length pre) /\
  ins_addr (VEX.base (self_after run)) = VEX.last_mark pre (ins_addr (VEX.base self)) /\
  logged run =
    logged (VEX._process_Stmt_from ops 0 pre (self_after (VEX.bind_context st b self))).
Proof.
  intros Hstmts Hs Hreach. cbv zeta. rewrite vex_process_unfold.
  unfold VEX.reaches in Hreach. rewrite Hstmts in *.
  rewrite take_app_length in Hreach. apply outcome_Ok in Hreach.
  destruct (process_Stmt_from_Ok ops _ _ _ _ _ Hreach) as (Hi & _).
  rewrite process_Stmt_from_app, (bind_Ok _ _ _ _ _ _ Hreach).
  cbn [VEX._process_Stmt_from].
  rewrite (bind_Ok _ _ _ _ _ _ (loop_head_run _ _ _)).
  assert (Hnomark : VEX.last_mark [s] = fun x => x)
    by (destruct Hs as [(? & ? & ->)|(? & ? & ? & ->)]; reflexivity).
  assert (Hraise : forall x, VEX._handle_Stmt ops s x =
                     (Raise (VEX.not_implemented (VEX.stmt_type_name s)), x, []))
    by (destruct Hs as [(? & ? & ->)|(? & ? & ? & ->)]; reflexivity).
  rewrite (bind_Raise _ _ _ _ _ _ (Hraise _)).
  unfold outcome, self_after, logged. cbn [fst snd].
  rewrite Hnomark. repeat split.
  - unfold self_after in Hi. simpl in Hi |- *. exact Hi.
  - rewrite app_nil_r. reflexivity.
Qed.

(** X11. In dialect B, a [Jump] or a [Call] that the loop reaches ends the
    call in the same way: [process] raises [NotImplementedError], later
    statements are not run, and the statement index and the instruction
    address stay at the failing statement. *)
Theorem Jump_Call_abort_block (self : SimEngineLight (AIL.Block V) (AIL.Expr V))
    st b pre s post :
  AIL.statements b = pre ++ s :: post ->
  (exists idx target a, s = AIL.Jump idx target a) \/
  (exists idx target a, s = AIL.Call idx target a) ->
  AIL.reaches (self_after (AIL.bind_context st (Some b) self))
    (AIL.statements b) (length pre) ->
  let run := process AIL._process st (Some b) self in
  outcome run = Raise (AIL.not_implemented (AIL.stmt_type_name s)) /\
  stmt_idx (self_after run) = Some (length pre) /\
  ins_addr (self_after run) = Some (AIL.stmt_ins_addr s) /\
  logged run =
    logged (AIL._process_Stmt_from 0 pre (self_after (AIL.bind_context st (Some b) self))).
Proof.
  intros Hstmts Hs Hreach. cbv zeta. rewrite ail_process_unfold.
  unfold AIL.reaches in Hreach. rewrite Hstmts in *.
  rewrite take_app_length in Hreach. apply outcome_Ok in Hreach.
  rewrite ail_process_Stmt_from_app, (bind_Ok _ _ _ _ _ _ Hreach).
  cbn [AIL._process_Stmt_from].
  rewrite (bind_Ok _ _ _ _ _ _ (ail_loop_head_run _ _ _)).
  assert (Hraise : forall x, AIL._ail_handle_Stmt s x =
                     (Raise (AIL.not_implemented (AIL.stmt_type_name s)), x, []))
    by (destruct Hs as [(? & ? & ? & ->)|(? & ? & ? & ->)]; reflexivity).
  rewrite (bind_Raise _ _ _ _ _ _ (Hraise _)).
  unfold outcome, self_after, logged. cbn [fst snd]. repeat split.
  rewrite app_nil_r. reflexivity.
Qed.

(** [process] without a block: dialect A fails its assertion before
    anything is written on the instance; dialect B first binds the context
    (an empty temp table, no block, the state and its architecture) and
    then raises [AttributeError]. *)
Lemma process_without_block_raises st :
  (forall self : VEX.SimEngineLightVEX V,
     process (VEX._process ops) st None self = (Raise AssertionError, self, [])) /\
  (forall self : SimEngineLight (AIL.Block V) (AIL.Expr V),
     process AIL._process st None self =
       (Raise AttributeError,
        set_arch (Some (st_arch st))
          (set_state (Some st) (set_block None (set_tmps (Some ∅) self))),
        [])).
Proof. split; intros self; reflexivity. Qed.

(** X12. In dialect A the statement loop never removes a temp: over any
    run of statements, and whether the run ends or raises, every temp id
    defined before is still defined afterwards (its value may have been
    overwritten by a later [WrTmp] of the same id). *)
Theorem temps_never_removed (stmts : list (VEX.IRStmt V)) idx
    (self : VEX.SimEngineLightVEX V) (table : gmap Z V) :
  tmps (VEX.base self) = Some table ->
  exists table',
    tmps (VEX.base (self_after (VEX._process_Stmt_from ops idx stmts self))) = Some table' /\
    forall tmp, is_Some (table !! tmp) -> is_Some (table' !! tmp).
Proof.
  intros Ht. destruct (process_Stmt_from_dom ops stmts idx self table Ht)
    as (table' & Ht' & Hsub).
  exists table'. split; [exact Ht'|]. intros tmp Hin.
  apply elem_of_dom, Hsub, elem_of_dom, Hin.
Qed.

(** X14. In dialect B both operands of an Add or a Sub are always
    evaluated, the first before the second, and a raise of either leaves
    the node: there is no short cut as in dialect A, so an unknown first
    operand does not hide a second operand that raises. *)
Theorem Add_Sub_evaluate_both_operands
    (self : SimEngineLight (AIL.Block V) (AIL.Expr V))
    (idx : Z) (a0 a1 : AIL.Expr V) (tags : AIL.Tags) :
  let add := AIL._expr (AIL.BinaryOp idx "Add" [a0; a1] tags) self in
  let sub := AIL._expr (AIL.BinaryOp idx "Sub" [a0; a1] tags) self in
  (forall x s0 w0,
     AIL._expr a0 self = (Raise x, s0, w0) ->
     add = (Raise x, s0, w0) /\ sub = (Raise x, s0, w0)) /\
  (forall r0 s0 w0 x s1 w1,
     AIL._expr a0 self = (Ok r0, s0, w0) ->
     AIL._expr a1 s0 = (Raise x, s1, w1) ->
     add = (Raise x, s1, w0 ++ w1) /\ sub = (Raise x, s1, w0 ++ w1)).
Proof.
  cbv zeta.
  assert (Hadd : AIL._expr (AIL.BinaryOp idx "Add" [a0; a1] tags) self =
                 AIL._ail_handle_Add AIL._expr (AIL.BinaryOp idx "Add" [a0; a1] tags) self)
    by (rewrite ail_expr_eq; reflexivity).
  assert (Hsub : AIL._expr (AIL.BinaryOp idx "Sub" [a0; a1] tags) self =
                 AIL._ail_handle_Sub AIL._expr (AIL.BinaryOp idx "Sub" [a0; a1] tags) self)
    by (rewrite ail_expr_eq; reflexivity).
  rewrite Hadd, Hsub. clear Hadd Hsub. unfold AIL._ail_handle_Add, AIL._ail_handle_Sub.
  split.
  - intros x s0 w0 H0. rewrite !(bind_Raise _ _ _ _ _ _ H0). split; reflexivity.
  - intros r0 s0 w0 x s1 w1 H0 H1.
    rewrite !(bind_Ok _ _ _ _ _ _ H0), !(bind_Raise _ _ _ _ _ _ H1).
    split; reflexivity.
Qed.

(** X15. In either dialect, on an instance whose statement index and
    instruction address are [None] (a fresh one, or one left by a call that
    returned), a call of [process] that returns can be repeated: the same
    call on the instance it left gives the same outcome, the same log and
    the same instance again. *)
Theorem process_repeatable :
  (forall (self : VEX.SimEngineLightVEX V) st b,
     stmt_idx (VEX.base self) = None -> ins_addr (VEX.base self) = None ->
     outcome (process (VEX._process ops) st (Some b) self) = Ok tt ->
     process (VEX._process ops) st (Some b)
       (self_after (process (VEX._process ops) st (Some b) self)) =
     process (VEX._process ops) st (Some b) self) /\
  (forall (self : SimEngineLight (AIL.Block V) (AIL.Expr V)) st blk,
     stmt_idx self = None -> ins_addr self = None ->
     outcome (process AIL._process st blk self) = Ok tt ->
     process AIL._process st blk (self_after (process AIL._process st blk self)) =
     process AIL._process st blk self).
Proof.
  split.
  - intros self st b Hs Hi Hok.
    destruct (vex_process_completed ops _ _ _ Hok)
      as (b' & _ & Hs' & Hi' & _ & _ & _ & _ & _ & He).
    apply vex_process_rebinds; congruence.
  - intros self st blk Hs Hi Hok.
    destruct (ail_process_completed _ _ _ Hok) as (Hs' & Hi' & _ & _ & _ & _ & He).
    apply ail_process_rebinds; congruence.
Qed.

(** X16. In dialect A a raise inside the data of a [WrTmp] leaves the
    statement with the instance unchanged, so the temp is not defined; in
    the base engine this is what happens to every [WrTmp] of a register
    read or of a memory load. *)
Theorem WrTmp_propagates_raise (self : VEX.SimEngineLightVEX V) tmp :
  (forall data x s w,
     VEX._expr ops data self = (Raise x, s, w) ->
     VEX._handle_Stmt ops (VEX.WrTmp tmp data) self = (Raise x, self, w)) /\
  (forall offset ty,
     VEX._handle_Stmt ops (VEX.WrTmp tmp (VEX.Get offset ty)) self =
       (Raise (VEX.not_implemented "Get"), self, [])) /\
  (forall end_ ty a,
     VEX._handle_Stmt ops (VEX.WrTmp tmp (VEX.Load end_ ty a)) self =
       (Raise (VEX.not_implemented "Load"), self, [])).
Proof.
  split; [|split; reflexivity].
  intros data x s w Hd.
  assert (s = self) as ->.
  { pose proof (observer_expr ops data self) as Ho. rewrite Hd in Ho. exact Ho. }
  unfold VEX._handle_Stmt. cbn [VEX.stmt_type_name].
  change (VEX.getattr ("_handle_" +:+ "WrTmp")) with (Some VEX.hWrTmp).
  cbn [VEX.call_stmt VEX._handle_WrTmp]. apply (bind_Raise _ _ _ _ _ _ Hd).
Qed.

(** X17. End to end in dialect A: for the block
    [[t0 = c0; t1 = Add(t0, c1)]], whatever the instance held before,
    [process] returns without a log record and leaves the table
    [{t0: c0, t1: c0 + c1}]; when [c0 + c1] is a [TypeError] the call still
    returns and [t1] is left undefined. *)
Theorem two_temps_end_to_end (self : VEX.SimEngineLightVEX V) st b
    t0 t1 (c0 c1 : VEX.IRConst V) (width : string) :
  VEX.statements (VEX.vex b) =
    [VEX.WrTmp t0 (VEX.Const c0);
     VEX.WrTmp t1 (VEX.Binop ("Iop_Add" +:+ width) [VEX.RdTmp t0; VEX.Const c1])] ->
  let run := process (VEX._process ops) st (Some b) self in
  outcome run = Ok tt /\
  logged run = [] /\
  tmps (VEX.base (self_after run)) =
    Some (match py_add (VEX.value c0) (VEX.value c1) with
          | Some r => <[t1 := r]> (<[t0 := VEX.value c0]> ∅)
          | None => <[t0 := VEX.value c0]> ∅
          end).
Proof.
  intros Hstmts. cbv zeta. rewrite vex_process_unfold, Hstmts.
  rewrite bind_context_run. unfold self_after. cbn [fst snd].
  set (s0 := {| VEX.base := _; VEX.tyenv := _ |}).
  set (s1 := VEX.on_base (set_ins_addr (VEX.last_mark [VEX.WrTmp t0 (VEX.Const c0)]
                                          (ins_addr (VEX.base s0))))
               (VEX.on_base (set_stmt_idx (Some 0%nat)) s0)).
  assert (H1 : VEX._handle_Stmt ops (VEX.WrTmp t0 (VEX.Const c0)) s1 =
               (Ok tt, VEX.on_base (set_tmps (Some (<[t0 := VEX.value c0]> ∅))) s1, [])).
  { apply (handle_WrTmp_Some ops s1 ∅); [reflexivity|].
    apply (arith_expr_run ops (VEX.Const c0) eq_refl s1 ∅). reflexivity. }
  set (s1' := VEX.on_base (set_tmps (Some (<[t0 := VEX.value c0]> ∅))) s1) in *.
  set (stmt1 := VEX.WrTmp t1 (VEX.Binop ("Iop_Add" +:+ width)
                                [VEX.RdTmp t0; VEX.Const c1])).
  set (s2 := VEX.on_base (set_ins_addr (VEX.last_mark [stmt1] (ins_addr (VEX.base s1'))))
               (VEX.on_base (set_stmt_idx (Some 1%nat)) s1')).
  assert (Ht2 : tmps (VEX.base s2) = Some (<[t0 := VEX.value c0]> ∅)) by reflexivity.
  assert (Harith : VEX.arith
            (VEX.Binop ("Iop_Add" +:+ width) [VEX.RdTmp t0; VEX.Const c1]) = true).
  { simpl VEX.arith. rewrite prefix_append. reflexivity. }
  pose proof (arith_expr_run ops _ Harith s2 _ Ht2) as Hd.
  cbn [VEX.arith_value] in Hd. rewrite lookup_insert_eq, prefix_append in Hd.
  destruct (py_add (VEX.value c0) (VEX.value c1)) as [r|] eqn:Hsum.
  - pose proof (handle_WrTmp_Some ops s2 _ t1 _ r [] Ht2 Hd) as H2.
    pose proof (process_Stmt_from_cons_Ok ops stmt1 [] 1 s1' _ [] (Ok tt) _ []
                  H2 eq_refl) as Hl2.
    rewrite (process_Stmt_from_cons_Ok ops _ _ 0 s0 _ _ _ _ _ H1 Hl2).
    repeat split.
  - assert (H2 : VEX._handle_Stmt ops stmt1 s2 = (Ok tt, s2, [])).
    { unfold stmt1, VEX._handle_Stmt. cbn [VEX.stmt_type_name].
      change (VEX.getattr ("_handle_" +:+ "WrTmp")) with (Some VEX.hWrTmp).
      cbn [VEX.call_stmt VEX._handle_WrTmp]. rewrite (bind_Ok _ _ _ _ _ _ Hd).
      reflexivity. }
    pose proof (process_Stmt_from_cons_Ok ops stmt1 [] 1 s1' _ [] (Ok tt) _ []
                  H2 eq_refl) as Hl2.
    rewrite (process_Stmt_from_cons_Ok ops _ _ 0 s0 _ _ _ _ _ H1 Hl2).
    repeat split.
Qed.

(** X18. In dialect B a fully foldable tree collapses: an expression built
    from constants, temps that hold plain objects, and additions and
    subtractions whose arithmetic succeeds evaluates, without a raise and
    without a log record, to the single object that arithmetic gives. *)
Theorem foldable_tree_collapses (e : AIL.Expr V)
    (self : SimEngineLight (AIL.Block V) (AIL.Expr V)) (table : gmap Z (AIL.Expr V)) v :
  tmps self = Some table ->
  AIL.fold_value table e = Some v ->
  AIL._expr e self = (Ok (Some (AIL.Prim v)), self, []).
Proof.
  intros Ht. revert v.
  induction e as [|idx value bits tags|idx tmp_idx bits tags| | |idx op operands tags IH|]
    using Expr_rect_operands; intros v' Hv; try discriminate.
  - injection Hv as <-. rewrite ail_expr_eq. reflexivity.
  - simpl in Hv. rewrite ail_expr_eq. simpl. unfold bind, gets. rewrite Ht. simpl.
    destruct (table !! tmp_idx) as [[]|]; try discriminate.
    injection Hv as <-. reflexivity.
  - destruct operands as [|a [|b [|c operands]]]; try discriminate.
    simpl in Hv.
    pose proof (Forall_inv IH) as IHa.
    pose proof (Forall_inv (Forall_inv_tail IH)) as IHb.
    cbv beta in IHa, IHb.
    destruct (AIL.fold_value table a) as [x|]; [|discriminate].
    destruct (AIL.fold_value table b) as [y|]; [|discriminate].
    specialize (IHa x eq_refl). specialize (IHb y eq_refl).
    destruct (String.eqb op "Add") eqn:Hadd.
    + apply String.eqb_eq in Hadd as ->. rewrite ail_expr_eq.
      cbn [AIL.expr_type_name].
      change (AIL.getattr ("_ail_handle_" +:+ "BinaryOp")) with (Some AIL.hBinaryOp).
      cbn [AIL._ail_handle_BinaryOp].
      change (AIL.getattr ("_ail_handle_" +:+ "Add")) with (Some AIL.hAdd).
      cbn [AIL.call AIL._ail_handle_Add].
      rewrite (bind_Ok _ _ _ _ _ _ IHa), (bind_Ok _ _ _ _ _ _ IHb).
      simpl. rewrite Hv. reflexivity.
    + destruct (String.eqb op "Sub") eqn:Hsub; [|discriminate].
      apply String.eqb_eq in Hsub as ->. rewrite ail_expr_eq.
      cbn [AIL.expr_type_name].
      change (AIL.getattr ("_ail_handle_" +:+ "BinaryOp")) with (Some AIL.hBinaryOp).
      cbn [AIL._ail_handle_BinaryOp].
      change (AIL.getattr ("_ail_handle_" +:+ "Sub")) with (Some AIL.hSub).
      cbn [AIL.call AIL._ail_handle_Sub].
      rewrite (bind_Ok _ _ _ _ _ _ IHa), (bind_Ok _ _ _ _ _ _ IHb).
      simpl. rewrite Hv. reflexivity.
Qed.

End Further.

(** ** The further statements at concrete inputs *)

Lemma WrTmp_RdTmp_round_trip_witness :
  let self' :=
    VEX.on_base (set_tmps (Some (<[ 1 := PyInt 7 ]> {[ 0 := PyInt 5 ]}))) Ex.vself in
  VEX._handle_Stmt VEX.some_operations (VEX.WrTmp 1 (Ex.vconst 7)) Ex.vself
    = (Ok tt, self', []) /\
  VEX._expr VEX.some_operations (VEX.RdTmp 1) self' = (Ok (Some (PyInt 7)), self', []) /\
  VEX._expr VEX.some_operations (VEX.RdTmp 0) self' = (Ok (Some (PyInt 5)), self', []).
Proof.
  cbv zeta.
  destruct (WrTmp_RdTmp_round_trip (V:=builtin) VEX.some_operations Ex.vself Ex.vself
              {[ 0 := PyInt 5 ]} 1 (Ex.vconst 7) (PyInt 7) [] eq_refl eq_refl)
    as (H1 & H2 & H3).
  split; [exact H1|]. split; [exact H2|]. apply (H3 0). lia.
Defined.

Lemma expr_reads_only_tmps_witness :
  let e := VEX.Binop "Iop_Add64" [VEX.RdTmp 0; VEX.OtherExpr "ITE" []] in
  let other := VEX.on_base (set_ins_addr (Some 0x1000)) Ex.vself in
  outcome (VEX._expr VEX.some_operations e Ex.vself)
    = outcome (VEX._expr VEX.some_operations e other) /\
  logged (VEX._expr VEX.some_operations e Ex.vself)
    = logged (VEX._expr VEX.some_operations e other).
Proof.
  cbv zeta.
  apply (proj1 (expr_reads_only_tmps (V:=builtin) VEX.some_operations)
           (VEX.Binop "Iop_Add64" [VEX.RdTmp 0; VEX.OtherExpr "ITE" []])
           Ex.vself (VEX.on_base (set_ins_addr (Some 0x1000)) Ex.vself)).
  reflexivity.
Defined.

Lemma arith_expr_total_witness :
  VEX._expr VEX.some_operations
    (VEX.Binop "Iop_Sub64"
       [VEX.Binop "Iop_Add64" [VEX.RdTmp 0; Ex.vconst 3]; Ex.vconst 1]) Ex.vself
  = (Ok (Some (PyInt 7)), Ex.vself, []) /\
  VEX._expr VEX.some_operations
    (VEX.Binop "Iop_Sub64"
       [VEX.Binop "Iop_Add64" [VEX.RdTmp 0; Ex.vstr "x"]; Ex.vconst 1]) Ex.vself
  = (Ok None, Ex.vself, []).
Proof.
  split.
  - rewrite (arith_expr_total (V:=builtin) VEX.some_operations
               (VEX.Binop "Iop_Sub64"
                  [VEX.Binop "Iop_Add64" [VEX.RdTmp 0; Ex.vconst 3]; Ex.vconst 1])
               Ex.vself {[ 0 := PyInt 5 ]} eq_refl eq_refl).
    reflexivity.
  - rewrite (arith_expr_total (V:=builtin) VEX.some_operations
               (VEX.Binop "Iop_Sub64"
                  [VEX.Binop "Iop_Add64" [VEX.RdTmp 0; Ex.vstr "x"]; Ex.vconst 1])
               Ex.vself {[ 0 := PyInt 5 ]} eq_refl eq_refl).
    reflexivity.
Defined.

(** The handler of unary operations itself, called on a node that has an
    opcode: an opcode missing from the table is a [KeyError]. *)
Example handle_UnaryOp_missing_opcode :
  VEX._handle_UnaryOp VEX.some_operations (VEX._expr VEX.some_operations)
    (VEX.Unop "Iop_Clz64" [Ex.vconst 5]) Ex.vself
  = (Raise KeyError, Ex.vself, []).
Proof. reflexivity. Qed.

Lemma Binop_call_arity_witness :
  VEX._expr VEX.some_operations (VEX.Binop "Iop_Add64" [Ex.vconst 5]) Ex.vself
    = (Raise TypeError, Ex.vself, []) /\
  VEX._expr VEX.some_operations (VEX.Binop "Iop_Sub64" [Ex.vconst 5]) Ex.vself
    = (Raise TypeError, Ex.vself, []).
Proof.
  apply (proj2 (Binop_call_arity (V:=builtin) VEX.some_operations Ex.vself "64")
           [Ex.vconst 5]).
  simpl. lia.
Defined.

Lemma operator_dispatch_exact_witness :
  AIL._expr (AIL.BinaryOp 7 "CmpEQ" [Ex.aconst 5; Ex.aconst 3] []) Ex.aself
    = (Ok None, Ex.aself, [Warning "Unsupported BinaryOp %s." "CmpEQ"]) /\
  AIL._expr (AIL.UnaryOp 7 "Not" (Ex.aconst 5) []) Ex.aself
    = (Ok None, Ex.aself, [Warning "Unsupported UnaryOp %s." "Not"]).
Proof.
  destruct (operator_dispatch_exact (V:=builtin) Ex.aself) as (HB & HU & _).
  split; [apply HB|apply HU]; reflexivity.
Defined.

Lemma unsupported_only_block_witness :
  let vblk := Ex.vblock [VEX.IMark 0x1000 4 0; VEX.OtherStmt "NoOp"] in
  let ablk := Ex.ablock [AIL.Assign 0 (Ex.atmp 0) (Ex.aconst 5) 0x1000;
                         AIL.OtherStmt "ConditionalJump" 1 0x1004] in
  logged (process (VEX._process VEX.some_operations) Ex.st0 (Some vblk) VEX.new)
    = [Warning "Unsupported statement type %s." "IMark";
       Warning "Unsupported statement type %s." "NoOp"] /\
  logged (process AIL._process Ex.st0 (Some ablk) AIL.new)
    = [Warning "Unsupported statement type %s." "Assign";
       Warning "Unsupported statement type %s." "ConditionalJump"].
Proof.
  cbv zeta.
  destruct (unsupported_only_block (V:=builtin) VEX.some_operations) as [HA HB].
  split.
  - apply (HA VEX.new Ex.st0 (Ex.vblock [VEX.IMark 0x1000 4 0; VEX.OtherStmt "NoOp"])).
    repeat constructor.
  - apply (HB AIL.new Ex.st0
             (Ex.ablock [AIL.Assign 0 (Ex.atmp 0) (Ex.aconst 5) 0x1000;
                         AIL.OtherStmt "ConditionalJump" 1 0x1004])).
    repeat constructor.
Defined.

Lemma Put_Store_abort_block_witness :
  let blk := Ex.vblock [VEX.IMark 0x1000 4 0; VEX.WrTmp 0 (Ex.vconst 5);
                        VEX.Put (VEX.RdTmp 0) 16; VEX.WrTmp 1 (Ex.vconst 6)] in
  let run := process (VEX._process VEX.some_operations) Ex.st0 (Some blk) VEX.new in
  outcome run
    = Raise (NotImplementedError "Please implement the Put handler with your own logic.") /\
  stmt_idx (VEX.base (self_after run)) = Some 2%nat /\
  ins_addr (VEX.base (self_after run)) = Some 0x1000.
Proof.
  cbv zeta.
  destruct (Put_Store_abort_block (V:=builtin) VEX.some_operations VEX.new Ex.st0
              (Ex.vblock [VEX.IMark 0x1000 4 0; VEX.WrTmp 0 (Ex.vconst 5);
                          VEX.Put (VEX.RdTmp 0) 16; VEX.WrTmp 1 (Ex.vconst 6)])
              [VEX.IMark 0x1000 4 0; VEX.WrTmp 0 (Ex.vconst 5)]
              (VEX.Put (VEX.RdTmp 0) 16) [VEX.WrTmp 1 (Ex.vconst 6)]
              eq_refl (or_introl (ex_intro _ _ (ex_intro _ _ eq_refl))) eq_refl)
    as (H1 & H2 & H3 & _).
  split; [exact H1|]. split; [exact H2|exact H3].
Defined.

Lemma Jump_Call_abort_block_witness :
  let blk := Ex.ablock [AIL.Assign 0 (Ex.atmp 0) (Ex.aconst 5) 0x1000;
                        AIL.Jump 1 (Ex.aconst 0x2000) 0x1004;
                        AIL.Assign 2 (Ex.atmp 1) (Ex.aconst 6) 0x1008] in
  let run := process AIL._process Ex.st0 (Some blk) AIL.new in
  outcome run
    = Raise (NotImplementedError "Please implement the Jump handler with your own logic.") /\
  stmt_idx (self_after run) = Some 1%nat /\
  ins_addr (self_after run) = Some 0x1004.
Proof.
  cbv zeta.
  destruct (Jump_Call_abort_block (V:=builtin) AIL.new Ex.st0
              (Ex.ablock [AIL.Assign 0 (Ex.atmp 0) (Ex.aconst 5) 0x1000;
                          AIL.Jump 1 (Ex.aconst 0x2000) 0x1004;
                          AIL.Assign 2 (Ex.atmp 1) (Ex.aconst 6) 0x1008])
              [AIL.Assign 0 (Ex.atmp 0) (Ex.aconst 5) 0x1000]
              (AIL.Jump 1 (Ex.aconst 0x2000) 0x1004)
              [AIL.Assign 2 (Ex.atmp 1) (Ex.aconst 6) 0x1008]
              eq_refl (or_introl (ex_intro _ _ (ex_intro _ _ (ex_intro _ _ eq_refl))))
              eq_refl)
    as (H1 & H2 & H3 & _).
  split; [exact H1|]. split; [exact H2|exact H3].
Defined.

Lemma temps_never_removed_witness :
  exists table',
    tmps (VEX.base (self_after
      (VEX._process_Stmt_from VEX.some_operations 0
         [VEX.WrTmp 0 (Ex.vconst 9); VEX.Put (VEX.RdTmp 0) 16] Ex.vself))) = Some table' /\
    forall tmp, is_Some (({[ 0 := PyInt 5 ]} : gmap Z builtin) !! tmp) ->
                is_Some (table' !! tmp).
Proof.
  apply (temps_never_removed (V:=builtin) VEX.some_operations
           [VEX.WrTmp 0 (Ex.vconst 9); VEX.Put (VEX.RdTmp 0) 16] 0 Ex.vself
           {[ 0 := PyInt 5 ]}).
  reflexivity.
Defined.

Lemma Add_Sub_evaluate_both_operands_witness :
  AIL._expr (AIL.BinaryOp 7 "Add" [Ex.atmp 9; Ex.aload] []) Ex.aself
    = (Raise (NotImplementedError "Please implement the Load handler with your own logic."),
       Ex.aself, []) /\
  AIL._expr (AIL.BinaryOp 7 "Sub" [Ex.aload; Ex.atmp 9] []) Ex.aself
    = (Raise (NotImplementedError "Please implement the Load handler with your own logic."),
       Ex.aself, []).
Proof.
  split.
  - apply (proj2 (Add_Sub_evaluate_both_operands (V:=builtin) Ex.aself 7
                    (Ex.atmp 9) Ex.aload [])
             None Ex.aself []
             (NotImplementedError "Please implement the Load handler with your own logic.")
             Ex.aself [] eq_refl eq_refl).
  - apply (proj1 (Add_Sub_evaluate_both_operands (V:=builtin) Ex.aself 7
                    Ex.aload (Ex.atmp 9) [])
             (NotImplementedError "Please implement the Load handler with your own logic.")
             Ex.aself [] eq_refl).
Defined.

Lemma process_repeatable_witness :
  let blk := Ex.vblock [VEX.IMark 0x1000 4 0; VEX.WrTmp 0 (Ex.vconst 5)] in
  process (VEX._process VEX.some_operations) Ex.st0 (Some blk)
    (self_after (process (VEX._process VEX.some_operations) Ex.st0 (Some blk) VEX.new))
  = process (VEX._process VEX.some_operations) Ex.st0 (Some blk) VEX.new.
Proof.
  cbv zeta.
  apply (proj1 (process_repeatable (V:=builtin) VEX.some_operations) VEX.new Ex.st0
           (Ex.vblock [VEX.IMark 0x1000 4 0; VEX.WrTmp 0 (Ex.vconst 5)]));
    reflexivity.
Defined.

Lemma WrTmp_propagates_raise_witness :
  VEX._handle_Stmt VEX.some_operations
    (VEX.WrTmp 1 (VEX.Binop "Iop_Add64" [VEX.RdTmp 0; VEX.Get 16 "Ity_I64"])) Ex.vself
  = (Raise (NotImplementedError "Please implement the Get handler with your own logic."),
     Ex.vself, []).
Proof.
  apply (proj1 (WrTmp_propagates_raise (V:=builtin) VEX.some_operations Ex.vself 1)
           (VEX.Binop "Iop_Add64" [VEX.RdTmp 0; VEX.Get 16 "Ity_I64"])
           (NotImplementedError "Please implement the Get handler with your own logic.")
           Ex.vself []).
  reflexivity.
Defined.

Lemma two_temps_end_to_end_witness :
  let blk := Ex.vblock
    [VEX.WrTmp 0 (Ex.vconst 5);
     VEX.WrTmp 1 (VEX.Binop "Iop_Add64" [VEX.RdTmp 0; Ex.vconst 3])] in
  let run := process (VEX._process VEX.some_operations) Ex.st0 (Some blk) Ex.vself in
  outcome run = Ok tt /\ logged run = [] /\
  tmps (VEX.base (self_after run)) = Some (<[ 1 := PyInt 8 ]> (<[ 0 := PyInt 5 ]> ∅)).
Proof.
  cbv zeta.
  destruct (two_temps_end_to_end (V:=builtin) VEX.some_operations Ex.vself Ex.st0
              (Ex.vblock [VEX.WrTmp 0 (Ex.vconst 5);
                          VEX.WrTmp 1 (VEX.Binop "Iop_Add64" [VEX.RdTmp 0; Ex.vconst 3])])
              0 1 {| VEX.value := PyInt 5 |} {| VEX.value := PyInt 3 |} "64" eq_refl)
    as (H1 & H2 & H3).
  split; [exact H1|]. split; [exact H2|exact H3].
Defined.

Lemma foldable_tree_collapses_witness :
  AIL._expr
    (AIL.BinaryOp 7 "Sub"
       [AIL.BinaryOp 8 "Add" [Ex.atmp 0; Ex.aconst 3] []; Ex.aconst 1] [])
    Ex.aself
  = (Ok (Some (AIL.Prim (PyInt 7))), Ex.aself, []).
Proof.
  apply (foldable_tree_collapses (V:=builtin)
           (AIL.BinaryOp 7 "Sub"
              [AIL.BinaryOp 8 "Add" [Ex.atmp 0; Ex.aconst 3] []; Ex.aconst 1] [])
           Ex.aself {[ 0 := AIL.Prim (PyInt 5) ]} (PyInt 7));
    reflexivity.
Defined.
